(** * Monte Carlo estimation of the unit sphere volume: model and properties

    A shallow embedding of [estimation.cpp], [genmt.cpp] and [settings.h].

    - [f64] is IEEE-754 binary64, Rocq's primitive [float]: every source
      operation is one correctly rounded operation, in source order.  The
      build sets [-Ofast]; of what it allows, the evaluation of the division
      of line 45 through a reciprocal is modelled ([division]), since it
      differs between call sites; reassociation and fused operations are
      not.  Primitive floats carry a single NaN, so the sign and payload of
      a NaN are not modelled either.
    - [unsigned] is a [Z] in [0, 2^32) with the wrap-around written out.
    - [CLHEP::MTwistEngine] is an interface, [HepRandomEngine]: the engine
      belongs to an external library.
    - [std::chrono] readings are inputs: each run is handed the duration the
      clock measured.
    - [printf] output is a log of structured events; an exception that leaves
      [main] ends the run.
    - Each thread owns its [State].  The threads as they run, under any
      schedule, are the transition system [step], and [main_run] is [main]
      over it; [main_with] is the run in which each thread runs when it is
      joined. *)

From Stdlib Require Import ZArith List Lia Ascii String Floats Uint63.
From stdpp Require Import base strings pretty gmap.
Import ListNotations.

#[local] Open Scope Z_scope.

(** ** Machine numbers *)

Abbreviation f64 := float.

Definition wrap32 (z : Z) : Z := z mod 2 ^ 32.

(** Conversion of an [unsigned] to [double]. *)
Definition f64_of_u32 (z : Z) : f64 := PrimFloat.of_uint63 (Uint63.of_Z z).

(** The object representation of a [double], what
    [*reinterpret_cast<unsigned long long*>(&x)] reads. *)
Definition sign_bit (s : bool) : Z := if s then 2 ^ 63 else 0.

Definition bits_of_spec (x : spec_float) : Z :=
  match x with
  | S754_zero s => sign_bit s
  | S754_infinity s => sign_bit s + 2047 * 2 ^ 52
  | S754_nan => 2047 * 2 ^ 52 + 2 ^ 51
  | S754_finite s m e =>
      if 2 ^ 52 <=? Z.pos m
      then sign_bit s + (e + 1075) * 2 ^ 52 + (Z.pos m - 2 ^ 52)
      else sign_bit s + Z.pos m
  end.

Definition bits_of_f64 (x : f64) : Z := bits_of_spec (Prim2SF x).

(** ** settings.h *)

Module Settings.
Definition REPLICATES : Z := 10.
Definition DIMENSION : Z := 3.
Definition POINTS : Z := 1000000000.
Definition SIZE : Z := wrap32 (POINTS * DIMENSION).
End Settings.

(** ** The random engine

    [flat] draws one uniform value and advances the engine.  [saveStatus]
    writes the engine to a named file of the directory [F].
    [restoreStatus name fs e] loads the named file into the engine [e]:
    [Some e'] is the engine after a normal return, [None] stands for an
    exception.  [MTwistEngine seed] is the engine built from a seed.  The two
    laws are the save/restore contract of the engine. *)

Class HepRandomEngine (E F : Type) := {
  flat : E -> f64 * E;
  saveStatus : string -> E -> F -> F;
  restoreStatus : string -> F -> E -> option E;
  MTwistEngine : Z -> E;
  restore_saved : forall n e fs e0,
    restoreStatus n (saveStatus n e fs) e0 = Some e;
  restore_other : forall n n' e fs e0,
    n <> n' -> restoreStatus n' (saveStatus n e fs) e0 = restoreStatus n' fs e0
}.

(** ** Output and failure *)

Record Report := {
  r_replicates : Z;
  r_mean : f64;
  r_variance : f64;
  r_ub_variance : f64;
  r_std_deviation : f64;
  r_error : f64;
  r_relative_error : f64;
  r_std_error : f64;
  r_interval_low : f64;
  r_interval_high : f64;
  r_location : f64;
  r_radius : f64
}.

Inductive event :=
| Loading (file : string)
| Estimation (value : f64) (bits : Z) (seconds : f64)
| RunningThread
| Results (r : Report)
| RunningSequential
| ReproConfirmed
| ReproIssue (v : f64) (vbits : Z) (r : f64) (rbits : Z)
| SequentialTime (seconds : f64).

Inductive exn := StateLoadError (file : string).

(** A computation prints events and either returns or raises. *)
Definition IO (A : Type) : Type := list event * (exn + A).

Definition ret {A} (a : A) : IO A := ([], inr a).

Definition bind {A B} (m : IO A) (k : A -> IO B) : IO B :=
  match m with
  | (l, inl e) => (l, inl e)
  | (l, inr a) => let '(l', r) := k a in (l ++ l', r)
  end.

Definition emit (e : event) : IO unit := ([e], inr tt).
Definition raise {A} (e : exn) : IO A := ([], inl e).

Declare Scope io_scope.
Delimit Scope io_scope with io.
Notation "x <- m ;; k" := (bind m (fun x => k))
  (at level 100, m at next level, right associativity) : io_scope.
Notation "m ;;; k" := (bind m (fun _ => k))
  (at level 100, right associativity) : io_scope.

Definition printed {A} (m : IO A) : list event := fst m.
Definition outcome {A} (m : IO A) : exn + A := snd m.

(** ** Status files *)

(** [sprintf(s, "../status/status-%02d", seq)]: decimal, zero-padded to
    two characters. *)
Definition pad2 (seq : Z) : string :=
  if (0 <=? seq) && (seq <? 10) then "0" +:+ pretty seq else pretty seq.

Definition status_name (seq : Z) : string := "../status/status-" +:+ pad2 seq.

(** ** estimation.cpp: one replicate *)

Section Estimation.
Context {E F : Type} `{HepRandomEngine E F}.

#[local] Open Scope io_scope.

(** [struct State]; the thread handle carries no data. *)
Record State := {
  rng : E;
  value : f64;
  duration : f64
}.

(** Body of the sampling loop: the test on one point. *)
Definition inside (x y z : f64) : bool :=
  let sum := (x * x)%float in
  let sum := (sum + y * y)%float in
  let sum := (sum + z * z)%float in
  (sum <? 1)%float.

(** [for (unsigned i = points; i--;)]: [n] iterations; [in_] is [unsigned]. *)
Fixpoint sample (n : nat) (r : E) (in_ : Z) : E * Z :=
  match n with
  | O => (r, in_)
  | S n' =>
      let '(x, r1) := flat r in
      let '(y, r2) := flat r1 in
      let '(z, r3) := flat r2 in
      sample n' r3 (if inside x y z then wrap32 (in_ + 1) else in_)
  end.

(** The state [State::computeSphereVolume] leaves behind; [elapsed] is what
    the clock measured. *)
Definition simulate (points : Z) (elapsed : f64) (st : State) : State :=
  let '(r, in_) := sample (Z.to_nat points) (rng st) 0 in
  {| rng := r;
     value := (8 * f64_of_u32 in_ / f64_of_u32 points)%float;
     duration := elapsed |}.

(** [State::computeSphereVolume]. *)
Definition computeSphereVolume (points : Z) (elapsed : f64) (st : State)
  : IO State :=
  let st' := simulate points elapsed st in
  emit (Estimation (value st') (bits_of_f64 (value st')) (duration st')) ;;;
  ret st'.

(** [State::initRng]. *)
Definition initRng (fs : F) (seq : Z) (st : State) : IO State :=
  let s := status_name seq in
  emit (Loading s) ;;;
  match restoreStatus s fs (rng st) with
  | Some r => ret {| rng := r; value := value st; duration := duration st |}
  | None => raise (StateLoadError s)
  end.

End Estimation.

Arguments State E : clear implicits.
Arguments Build_State {E} _ _ _.

(** ** estimation.cpp: the report *)

Set Warnings "-inexact-float".

(** Student law coefficients (99% confidence), for k in
    [0-30] U {40, 50, 60, 80, 100, 120, inf}. *)
Definition STUDENT : list f64 := [
  infinity; 63.66; 9.925; 5.841; 4.604; 4.032; 3.707; 3.499; 3.355; 3.25;
  3.169; 3.106; 3.055; 3.012; 2.977; 2.947; 2.921; 2.898; 2.878; 2.861;
  2.845; 2.831; 2.819; 2.807; 2.797; 2.787; 2.779; 2.771; 2.763; 2.756; 2.75;
  2.704; 2.678; 2.66; 2.639; 2.626; 2.617; 2.576
]%float.

(** [std::numbers::pi] as a [double]. *)
Definition pi : f64 := 0x1.921fb54442d18p+1%float.

Definition real_value : f64 := (4 * pi / 3)%float.

(** The index into [STUDENT] chosen by the [if] chain. *)
Definition student_index (replicates : Z) : Z :=
  if replicates <=? 30 then replicates
  else if replicates <=? 60 then 27 + replicates / 10
  else if replicates <? 140 then 30 + replicates / 20
  else 37.

Definition student (replicates : Z) : f64 :=
  nth (Z.to_nat (student_index replicates)) STUDENT nan.

(** [R] before and after the Student coefficient is applied. *)
Definition radius (ub_variance : f64) (replicates : Z) : f64 :=
  let R := PrimFloat.sqrt (ub_variance / f64_of_u32 replicates)%float in
  (R * student replicates)%float.

(** Lines 101-102. *)
Definition location_percent (error R : f64) : f64 :=
  let location := ((error + R) * 100 / R)%float in
  if (100 <? location)%float then (200 - location)%float else location.

(** The values [printResult] computes and prints. *)
Definition summary (mean variance : f64) (replicates : Z) : Report :=
  let ub_variance :=
    (f64_of_u32 replicates * variance / f64_of_u32 (wrap32 (replicates - 1)))%float in
  let error := (real_value - mean)%float in
  let R := radius ub_variance replicates in
  let location := location_percent error R in
  {| r_replicates := replicates;
     r_mean := mean;
     r_variance := variance;
     r_ub_variance := ub_variance;
     r_std_deviation := PrimFloat.sqrt variance;
     r_error := error;
     r_relative_error := (100 * error / real_value)%float;
     r_std_error := PrimFloat.sqrt (variance / f64_of_u32 replicates)%float;
     r_interval_low := (mean - R)%float;
     r_interval_high := (mean + R)%float;
     r_location := location;
     r_radius := R |}.

Definition printResult (mean variance : f64) (replicates : Z) : IO unit :=
  emit (Results (summary mean variance replicates)).

(** The accumulation of [main], lines 134-147, on the estimates in index
    order. *)
Definition sums (values : list f64) : f64 * f64 :=
  fold_left
    (fun '(mean, squared_mean) v => ((mean + v)%float, (squared_mean + v * v)%float))
    values (0%float, 0%float).

Definition moments (values : list f64) (replicates : Z) : f64 * f64 :=
  let '(mean, squared_mean) := sums values in
  let mean := (mean / f64_of_u32 replicates)%float in
  let squared_mean := (squared_mean / f64_of_u32 replicates)%float in
  (mean, (squared_mean - mean * mean)%float).

(** What [main] hands to [printResult], as one function of the estimates. *)
Definition statistics (values : list f64) (replicates : Z) : Report :=
  let '(mean, variance) := moments values replicates in
  summary mean variance replicates.

(** ** estimation.cpp: the run *)

Section Main.
Context {E F : Type} `{HepRandomEngine E F}.

#[local] Open Scope io_scope.

(** [for (int i = 0; i < REPLICATES; i++) states[i].initRng(i);] from
    index [i] on. *)
Fixpoint initRng_loop (fs : F) (i : Z) (states : list (State E))
  : IO (list (State E)) :=
  match states with
  | [] => ret []
  | st :: rest =>
      st' <- initRng fs i st ;;
      rest' <- initRng_loop fs (i + 1) rest ;;
      ret (st' :: rest')
  end.

(** The threads started by [state.start()] and joined in index order, under
    the schedule in which each thread runs when it is joined: the lines of
    the threads then follow the banner in index order.  The threads share no
    data, so their states do not depend on the schedule; the order of their
    lines does, and the other schedules are those of [step] below
    ([main_with_run], [main_run_inv]). *)
Fixpoint join_loop (points : Z) (elapsed : nat -> f64) (i : nat)
  (states : list (State E)) : IO (list (State E)) :=
  match states with
  | [] => ret []
  | st :: rest =>
      st' <- computeSphereVolume points (elapsed i) st ;;
      rest' <- join_loop points elapsed (S i) rest ;;
      ret (st' :: rest')
  end.

(** The verdict of lines 160-171. *)
Definition same_bits (a b : f64) : bool := bits_of_f64 a =? bits_of_f64 b.

Definition check (v r : f64) : IO unit :=
  if same_bits v r then emit ReproConfirmed
  else emit (ReproIssue v (bits_of_f64 v) r (bits_of_f64 r)).

(** The sequential loop, lines 156-174, from index [i] on. *)
Fixpoint sequential_loop (points : Z) (elapsed : nat -> f64) (i : nat)
  (states : list (State E)) (results : list f64) (total : f64) : IO f64 :=
  match states, results with
  | st :: rest, r :: rs =>
      st' <- computeSphereVolume points (elapsed i) st ;;
      check (value st') r ;;;
      sequential_loop points elapsed (S i) rest rs (total + duration st')%float
  | _, _ => ret total
  end.

(** [main], for [replicates] states of [points] points, the threads
    scheduled as in [join_loop].  [initial i] is the default-constructed
    [states[i]]; [par_time i] and [seq_time i] are the durations the clock
    measures for replicate [i] in each pass. *)
Definition main_with (replicates points : Z) (fs : F)
  (initial : nat -> State E) (par_time seq_time : nat -> f64) : IO Z :=
  let states := map initial (seq 0 (Z.to_nat replicates)) in
  states <- initRng_loop fs 0 states ;;
  emit RunningThread ;;;
  states <- join_loop points par_time 0 states ;;
  let results := map value states in
  let '(mean, variance) := moments results replicates in
  printResult mean variance replicates ;;;
  emit RunningSequential ;;;
  states <- initRng_loop fs 0 states ;;
  total <- sequential_loop points seq_time 0 states results 0%float ;;
  emit (SequentialTime total) ;;;
  ret 0.

Definition main : F -> (nat -> State E) -> (nat -> f64) -> (nat -> f64) -> IO Z :=
  main_with Settings.REPLICATES Settings.POINTS.

End Main.

(** ** genmt.cpp *)

Section GenStatus.
Context {E F : Type} `{HepRandomEngine E F}.

(** Unhashed seed with equal number of 0 and 1. *)
Definition SEED : Z := 0xAAAAAAAA.

(** [for (unsigned u = SIZE; u--;) (void)mtRng.flat();] for [n] iterations. *)
Fixpoint discard (n : nat) (r : E) : E :=
  match n with
  | O => r
  | S n' => discard n' (snd (flat r))
  end.

(** The loop of [main] from index [i] on, [n] iterations left. *)
Fixpoint genmt_loop (size : Z) (n : nat) (i : Z) (mtRng : E) (fs : F) : E * F :=
  match n with
  | O => (mtRng, fs)
  | S n' =>
      let mtRng' := discard (Z.to_nat size) mtRng in
      genmt_loop size n' (i + 1) mtRng' (saveStatus (status_name i) mtRng' fs)
  end.

Definition genmt_with (replicates size : Z) (fs : F) : E * F :=
  genmt_loop size (Z.to_nat replicates) 0 (MTwistEngine SEED) fs.

Definition genmt : F -> E * F := genmt_with Settings.REPLICATES Settings.SIZE.

End GenStatus.

(** ** Streams of draws *)

Section Streams.
Context {E F : Type} `{HepRandomEngine E F}.

(** The next [n] values an engine produces. *)
Fixpoint draws (n : nat) (r : E) : list f64 :=
  match n with
  | O => []
  | S n' => fst (flat r) :: draws n' (snd (flat r))
  end.

(** Consecutive triples of a list of draws. *)
Fixpoint triples (l : list f64) : list (f64 * f64 * f64) :=
  match l with
  | x :: y :: z :: l' => (x, y, z) :: triples l'
  | _ => []
  end.

(** Number of triples that fall strictly inside the unit sphere. *)
Definition insideCount (l : list f64) : Z :=
  Z.of_nat (length (List.filter (fun '(x, y, z) => inside x y z) (triples l))).

End Streams.

(** ** A reference engine

    A counter that scrambles its position: the simplest engine that meets the
    interface, used to run the model on concrete inputs.  Its status directory
    is a finite map from file names to saved positions, and restoring a file
    that does not exist raises. *)

Module Counter.

Definition output (p : Z) : f64 :=
  (f64_of_u32 (wrap32 (p * 2654435761)) / 4294967296)%float.

Definition next (p : Z) : f64 * Z := (output p, p + 1).

Definition save (n : string) (p : Z) (fs : gmap string Z) : gmap string Z :=
  <[n := p]> fs.

Definition restore (n : string) (fs : gmap string Z) (p : Z) : option Z :=
  fs !! n.

#[global, refine] Instance engine : HepRandomEngine Z (gmap string Z) := {|
  flat := next;
  saveStatus := save;
  restoreStatus := restore;
  MTwistEngine := fun seed => seed
|}.
Proof.
  - intros n p fs p0. apply lookup_insert_eq.
  - intros n n' p fs p0 Hn. unfold restore, save. now apply lookup_insert_ne.
Defined.

(** The same engine with a [restoreStatus] that never raises: a file that
    does not exist leaves the engine as it is. *)
Definition restore_quiet (n : string) (fs : gmap string Z) (p : Z) : option Z :=
  Some (default p (fs !! n)).

#[refine] Definition quiet : HepRandomEngine Z (gmap string Z) := {|
  flat := next;
  saveStatus := save;
  restoreStatus := restore_quiet;
  MTwistEngine := fun seed => seed
|}.
Proof.
  - intros n p fs p0. unfold restore_quiet, save. now rewrite lookup_insert_eq.
  - intros n n' p fs p0 Hn. unfold restore_quiet, save.
    now rewrite lookup_insert_ne.
Defined.

End Counter.

(** ** Vocabulary of the statements *)

(** [lo <= x <= hi], decided on the doubles themselves. *)
Definition within (x lo hi : f64) : bool := ((lo <=? x) && (x <=? hi))%float.

(** Sum and sum of squares of a sequence, accumulated from zero in order. *)
Definition total (values : list f64) : f64 :=
  fold_left (fun acc v => (acc + v)%float) values 0%float.

Definition total_squares (values : list f64) : f64 :=
  fold_left (fun acc v => (acc + v * v)%float) values 0%float.

(** The entry of [STUDENT] at an index. *)
Definition entry (i : Z) : f64 := nth (Z.to_nat i) STUDENT nan.

(** The states the simulations leave behind, replicate [i] onwards. *)
Section Runs.
Context {E F : Type} `{HepRandomEngine E F}.

Fixpoint simulate_all (points : Z) (elapsed : nat -> f64) (i : nat)
  (states : list (State E)) : list (State E) :=
  match states with
  | [] => []
  | st :: rest =>
      simulate points (elapsed i) st :: simulate_all points elapsed (S i) rest
  end.

(** What one replicate of the sequential pass prints: its estimate, then the
    verdict against the recorded result [r]. *)
Definition replicate_log (st' : State E) (r : f64) : list event :=
  [ Estimation (value st') (bits_of_f64 (value st')) (duration st');
    if bits_of_f64 (value st') =? bits_of_f64 r then ReproConfirmed
    else ReproIssue (value st') (bits_of_f64 (value st')) r (bits_of_f64 r) ].

Definition total_duration (runs : list (State E)) (start : f64) : f64 :=
  fold_left (fun t st' => (t + duration st')%float) runs start.

(** The draws replicate [i] makes once its status is loaded into [e0]. *)
Definition replicate_draws (fs : F) (e0 : E) (n : nat) (i : Z) : list f64 :=
  match restoreStatus (status_name i) fs e0 with
  | Some r => draws n r
  | None => []
  end.

End Runs.

Definition is_loading (e : event) : bool :=
  match e with Loading _ => true | _ => false end.

Definition is_issue (e : event) : bool :=
  match e with ReproIssue _ _ _ _ => true | _ => false end.

Definition is_estimation (e : event) : bool :=
  match e with Estimation _ _ _ => true | _ => false end.

(** The traces and states of the loops of [main] when every status loads. *)
Section Passes.
Context {E F : Type} `{HepRandomEngine E F}.

Fixpoint load_all (fs : F) (i : Z) (states : list (State E)) : list (State E) :=
  match states with
  | [] => []
  | st :: rest =>
      {| rng := default (rng st) (restoreStatus (status_name i) fs (rng st));
         value := value st;
         duration := duration st |} :: load_all fs (i + 1) rest
  end.

Fixpoint loading_log (i : Z) (n : nat) : list event :=
  match n with
  | O => []
  | S n' => Loading (status_name i) :: loading_log (i + 1) n'
  end.

Definition estimation_log (runs : list (State E)) : list event :=
  map (fun st' => Estimation (value st') (bits_of_f64 (value st')) (duration st'))
    runs.

Definition verdict_log (runs : list (State E)) (results : list f64) : list event :=
  concat (map (fun '(st', r) => replicate_log st' r) (combine runs results)).

End Passes.

(** ** The build: how line 45 is evaluated

    The build file sets [-Ofast] (CMakeLists.txt, line 11) and leaves
    [-fno-fast-math] commented out "to test bitwise reproducibility" (line
    12).  [-Ofast] turns on [-freciprocal-math]: the compiler may evaluate a
    division by multiplying with the reciprocal of the divisor, which is
    exact only when the divisor is a power of two.  A call site of
    [computeSphereVolume] therefore evaluates [8. * in / points] in one of
    two ways: [Quotient] is the operation the source writes, [Reciprocal]
    the one the option allows.  Which one a call site gets is the
    compiler's choice; the model takes it as a parameter. *)

Inductive division := Quotient | Reciprocal.

Definition estimate (d : division) (in_ points : Z) : f64 :=
  match d with
  | Quotient => (8 * f64_of_u32 in_ / f64_of_u32 points)%float
  | Reciprocal => (8 * f64_of_u32 in_ * (1 / f64_of_u32 points))%float
  end.

Section Build.
Context {E F : Type} `{HepRandomEngine E F}.

#[local] Open Scope io_scope.

(** [State::computeSphereVolume] at a call site that evaluates line 45 as
    [d]; the loop is the loop of [simulate]. *)
Definition simulate_as (d : division) (points : Z) (elapsed : f64)
  (st : State E) : State E :=
  let '(r, in_) := sample (Z.to_nat points) (rng st) 0 in
  {| rng := r; value := estimate d in_ points; duration := elapsed |}.

(** The line of output of lines 47-50. *)
Definition line (st' : State E) : event :=
  Estimation (value st') (bits_of_f64 (value st')) (duration st').

Definition computeSphereVolume_as (d : division) (points : Z) (elapsed : f64)
  (st : State E) : IO (State E) :=
  let st' := simulate_as d points elapsed st in
  emit (line st') ;;; ret st'.

Fixpoint simulate_all_as (d : division) (points : Z) (elapsed : nat -> f64)
  (i : nat) (states : list (State E)) : list (State E) :=
  match states with
  | [] => []
  | st :: rest =>
      simulate_as d points (elapsed i) st ::
      simulate_all_as d points elapsed (S i) rest
  end.

(** The sequential loop, lines 156-174, whose call of line 157 evaluates
    line 45 as [d]. *)
Fixpoint sequential_loop_as (d : division) (points : Z) (elapsed : nat -> f64)
  (i : nat) (states : list (State E)) (results : list f64) (total : f64)
  : IO f64 :=
  match states, results with
  | st :: rest, r :: rs =>
      st' <- computeSphereVolume_as d points (elapsed i) st ;;
      check (value st') r ;;;
      sequential_loop_as d points elapsed (S i) rest rs (total + duration st')%float
  | _, _ => ret total
  end.

(** [main] from line 134 on, once every thread is joined: [states] are the
    states the threads left behind. *)
Definition main_tail (d : division) (replicates points : Z) (fs : F)
  (seq_time : nat -> f64) (states : list (State E)) : IO Z :=
  let results := map value states in
  let '(mean, variance) := moments results replicates in
  printResult mean variance replicates ;;;
  emit RunningSequential ;;;
  states <- initRng_loop fs 0 states ;;
  total <- sequential_loop_as d points seq_time 0 states results 0%float ;;
  emit (SequentialTime total) ;;;
  ret 0.

End Build.

(** ** The threads

    Lines 130-142 as a transition system.  The main thread starts one
    thread per state, prints the banner and joins the threads in index
    order; a started thread runs [State::computeSphereVolume] on its own
    [State], one iteration of the sampling loop per step, then stores its
    estimate and prints its line.  Any thread that can move may move next:
    the schedule is not fixed.  A call of [printf] is one step, since the
    stream is locked for the duration of a call. *)

Section Threads.
Context {E F : Type} `{HepRandomEngine E F}.

(** One iteration of the loop of line 34. *)
Definition iteration (r : E) (in_ : Z) : E * Z :=
  let '(x, r1) := flat r in
  let '(y, r2) := flat r1 in
  let '(z, r3) := flat r2 in
  (r3, if inside x y z then wrap32 (in_ + 1) else in_).

Inductive thread :=
| Idle (st : State E)
| Sampling (left : nat) (r : E) (in_ : Z)
| Returned (st : State E).

(** A thread that [start] has just created: [computeSphereVolume] is about
    to enter its loop. *)
Definition started (points : Z) (st : State E) : thread :=
  Sampling (Z.to_nat points) (rng st) 0.

Inductive instr := Start (i : nat) | Banner | Join (i : nat).

(** Lines 130, 132 and 138 for [K] states. *)
Definition program (K : nat) : list instr :=
  (Start <$> seq 0 K) ++ Banner :: (Join <$> seq 0 K).

Record config := {
  pc : list instr;
  threads : list thread;
  out : list event
}.

(** After the first loading loop. *)
Definition boot (states : list (State E)) : config :=
  {| pc := program (length states); threads := Idle <$> states; out := [] |}.

(** The threads run the out-of-line [computeSphereVolume], which evaluates
    line 45 as [d]; [elapsed i] is what the clock of thread [i] measures. *)
Inductive step (d : division) (points : Z) (elapsed : nat -> f64)
  : config -> config -> Prop :=
| step_start i st rest ts o :
    ts !! i = Some (Idle st) ->
    step d points elapsed
      {| pc := Start i :: rest; threads := ts; out := o |}
      {| pc := rest; threads := <[i := started points st]> ts; out := o |}
| step_banner rest ts o :
    step d points elapsed
      {| pc := Banner :: rest; threads := ts; out := o |}
      {| pc := rest; threads := ts; out := o ++ [RunningThread] |}
| step_join i st rest ts o :
    ts !! i = Some (Returned st) ->
    step d points elapsed
      {| pc := Join i :: rest; threads := ts; out := o |}
      {| pc := rest; threads := ts; out := o |}
| step_iteration p i n r in_ ts o :
    ts !! i = Some (Sampling (S n) r in_) ->
    step d points elapsed
      {| pc := p; threads := ts; out := o |}
      {| pc := p;
         threads := <[i := Sampling n (fst (iteration r in_))
                              (snd (iteration r in_))]> ts;
         out := o |}
| step_return p i r in_ ts o :
    ts !! i = Some (Sampling 0 r in_) ->
    let st' := {| rng := r; value := estimate d in_ points;
                  duration := elapsed i |} in
    step d points elapsed
      {| pc := p; threads := ts; out := o |}
      {| pc := p; threads := <[i := Returned st']> ts; out := o ++ [line st'] |}.

(** What a thread has printed. *)
Definition thread_out (t : thread) : list event :=
  match t with Returned st' => [line st'] | _ => [] end.

(** The lines of the threads of [order], in that order. *)
Definition lines_of (ran : list (State E)) (order : list nat) : list event :=
  omap (fun i => line <$> ran !! i) order.

(** Steps a thread has left, the start included. *)
Definition thread_left (points : Z) (t : thread) : nat :=
  match t with
  | Idle _ => Z.to_nat points + 2
  | Sampling n _ _ => n + 1
  | Returned _ => 0
  end.

Definition steps_left (points : Z) (c : config) : nat :=
  length (pc c) + list_sum (thread_left points <$> threads c).

(** Where thread [i], started from [st], can be once the main thread has
    executed [k] instructions of a program for [K] states. *)
Definition thread_ok (d : division) (points : Z) (elapsed : nat -> f64)
  (K k i : nat) (st : State E) (t : thread) : Prop :=
  match t with
  | Idle st' => st' = st /\ (k <= i)%nat
  | Sampling n r in_ =>
      (i < k <= K + 1 + i)%nat /\
      sample n r in_ = sample (Z.to_nat points) (rng st) 0
  | Returned st' =>
      (i < k)%nat /\ st' = simulate_as d points (elapsed i) st
  end.

(** The invariant of the transition system. *)
Definition invariant (d : division) (points : Z) (elapsed : nat -> f64)
  (states : list (State E)) (c : config) : Prop :=
  let K := length states in
  exists k : nat,
    pc c = drop k (program K) /\
    length (threads c) = K /\
    (forall i st, states !! i = Some st ->
       exists t, threads c !! i = Some t /\
                 thread_ok d points elapsed K k i st t) /\
    Permutation (out c)
      ((if (K <? k)%nat then [RunningThread] else []) ++
       flat_map thread_out (threads c)).

(** The runs of [main]: the loading loop, any run of the threads up to the
    last join, and the rest of [main].  [dT] is the evaluation of line 45 in
    the threads, [dS] at the call of line 157. *)
Inductive main_run (dT dS : division) (replicates points : Z) (fs : F)
  (initial : nat -> State E) (par_time seq_time : nat -> f64) : IO Z -> Prop :=
| run_load_error l e :
    initRng_loop fs 0 (map initial (seq 0 (Z.to_nat replicates))) = (l, inl e) ->
    main_run dT dS replicates points fs initial par_time seq_time (l, inl e)
| run_complete l states c ran :
    initRng_loop fs 0 (map initial (seq 0 (Z.to_nat replicates))) =
      (l, inr states) ->
    rtc (step dT points par_time) (boot states) c ->
    pc c = [] ->
    threads c = Returned <$> ran ->
    main_run dT dS replicates points fs initial par_time seq_time
      (bind (l ++ out c, inr tt)
         (fun _ => main_tail dS replicates points fs seq_time ran)).

End Threads.

Arguments thread E : clear implicits.
Arguments config E : clear implicits.

Definition is_verdict (e : event) : bool :=
  match e with ReproConfirmed | ReproIssue _ _ _ _ => true | _ => false end.

(** The verdict of lines 160-171 on a replicate whose two simulations count
    [in_] points, the thread evaluating line 45 as [dT] and the call of line
    157 as [dS]. *)
Definition verdict (dT dS : division) (points in_ : Z) : event :=
  let v := estimate dS in_ points in
  let r := estimate dT in_ points in
  if bits_of_f64 v =? bits_of_f64 r then ReproConfirmed
  else ReproIssue v (bits_of_f64 v) r (bits_of_f64 r).


(** * Properties *)

(** ** Doubles and their bit patterns *)

Lemma pow2_pred (d : Z) : 1 <= d -> 2 ^ d = 2 * 2 ^ (d - 1).
Proof.
  intros Hd. rewrite <- Z.pow_succ_r by lia. f_equal. lia.
Qed.

Lemma digits2_pos_bounds (m : positive) :
  2 ^ (Z.pos (digits2_pos m) - 1) <= Z.pos m < 2 ^ Z.pos (digits2_pos m).
Proof.
  induction m as [p IH | p IH |]; cbn [digits2_pos];
    [rewrite Pos2Z.inj_succ; change (Z.pos p~1) with (2 * Z.pos p + 1)
    | rewrite Pos2Z.inj_succ; change (Z.pos p~0) with (2 * Z.pos p)
    | cbn; lia].
  all: replace (Z.succ (Z.pos (digits2_pos p)) - 1)
         with (Z.pos (digits2_pos p)) by lia.
  all: rewrite (pow2_pred (Z.succ (Z.pos (digits2_pos p)))) by lia.
  all: replace (Z.succ (Z.pos (digits2_pos p)) - 1)
         with (Z.pos (digits2_pos p)) by lia.
  all: rewrite (pow2_pred (Z.pos (digits2_pos p))) in * by lia.
  all: lia.
Qed.

(** A finite double is normal, with a 53-bit significand, or subnormal, with
    the least exponent. *)
Lemma valid_finite (s : bool) (m : positive) (e : Z) :
  valid_binary (S754_finite s m e) = true ->
  (2 ^ 52 <= Z.pos m < 2 ^ 53 /\ -1074 <= e <= 971) \/
  (Z.pos m < 2 ^ 52 /\ e = -1074).
Proof.
  unfold SpecFloat.valid_binary, bounded, canonical_mantissa, fexp,
    SpecFloat.emin, prec, emax.
  intros Hv. apply andb_prop in Hv as [Hc He].
  apply Z.eqb_eq in Hc. apply Z.leb_le in He.
  pose proof (digits2_pos_bounds m) as Hd.
  set (d := Z.pos (digits2_pos m)) in *.
  assert (Hd1 : 1 <= d) by (subst d; lia).
  destruct (Z.le_gt_cases d 52) as [Hle | Hgt].
  - right. assert (2 ^ d <= 2 ^ 52) by (apply Z.pow_le_mono_r; lia). lia.
  - destruct (Z.le_gt_cases 54 d) as [Hge | Hlt].
    + assert (2 ^ 53 <= 2 ^ (d - 1)) by (apply Z.pow_le_mono_r; lia). lia.
    + assert (Heq : d = 53) by lia. rewrite Heq in *.
      change (53 - 1) with 52 in Hd. left. lia.
Qed.

Lemma bits_of_spec_inj (a b : spec_float) :
  valid_binary a = true -> valid_binary b = true ->
  bits_of_spec a = bits_of_spec b -> a = b.
Proof.
  intros Ha Hb.
  destruct a as [sa | sa | | sa ma ea], b as [sb | sb | | sb mb eb];
    try apply valid_finite in Ha; try apply valid_finite in Hb;
    unfold bits_of_spec, sign_bit;
    change (2 ^ 63) with 9223372036854775808 in *;
    change (2 ^ 53) with 9007199254740992 in *;
    change (2 ^ 52) with 4503599627370496 in *;
    change (2 ^ 51) with 2251799813685248 in *;
    repeat match goal with
           | |- context [if ?c <=? ?d then _ else _] => destruct (Z.leb_spec c d)
           | s : bool |- _ => destruct s
           end;
    intros Heq; try reflexivity; try lia.
  all: assert (Hm : Z.pos ma = Z.pos mb) by lia.
  all: assert (He : ea = eb) by lia.
  all: injection Hm as ->; subst; reflexivity.
Qed.

(** Two doubles with the same bit pattern are the same double. *)
Lemma bits_of_f64_inj (x y : f64) : bits_of_f64 x = bits_of_f64 y -> x = y.
Proof.
  intros Heq. apply Prim2SF_inj.
  apply bits_of_spec_inj; [apply Prim2SF_valid | apply Prim2SF_valid | exact Heq].
Qed.

Lemma f64_neq (x y : f64) : bits_of_f64 x <> bits_of_f64 y -> x <> y.
Proof. intros Hb ->. now apply Hb. Qed.

Lemma same_bits_eq (x y : f64) : same_bits x y = true <-> x = y.
Proof.
  unfold same_bits. rewrite Z.eqb_eq. split.
  - apply bits_of_f64_inj.
  - now intros ->.
Qed.

(** The bit patterns of some doubles, and two pairs that an equality test on
    numbers, exact or with a tolerance, would accept. *)
Lemma bits_of_f64_examples :
  bits_of_f64 1 = 0x3FF0000000000000 /\
  bits_of_f64 (-2.5) = 0xC004000000000000 /\
  bits_of_f64 0x1p-1074 = 1 /\
  bits_of_f64 0x1.fffffffffffffp+1023 = 0x7FEFFFFFFFFFFFFF /\
  bits_of_f64 infinity = 0x7FF0000000000000 /\
  (0 =? -0)%float = true /\ same_bits 0 (-0) = false /\
  same_bits 4 0x1.0000000000001p+2 = false.
Proof. repeat split. Qed.

Lemma is_nan_Prim2SF (x : f64) :
  Prim2SF x = S754_nan -> PrimFloat.is_nan x = true.
Proof.
  intros Hx. unfold PrimFloat.is_nan. now rewrite FloatAxioms.eqb_spec, Hx.
Qed.

Lemma is_infinity_Prim2SF (x : f64) (s : bool) :
  Prim2SF x = S754_infinity s -> PrimFloat.is_infinity x = true.
Proof.
  intros Hx. unfold PrimFloat.is_infinity.
  now rewrite FloatAxioms.eqb_spec, FloatAxioms.abs_spec, Hx.
Qed.

(** A quotient by zero is a NaN or an infinity. *)
Lemma div_zero_not_finite (x : f64) : PrimFloat.is_finite (x / 0)%float = false.
Proof.
  unfold PrimFloat.is_finite.
  assert (Hq : Prim2SF (x / 0)%float = S754_nan \/
               exists s, Prim2SF (x / 0)%float = S754_infinity s).
  { rewrite FloatAxioms.div_spec.
    change (Prim2SF 0%float) with (S754_zero false).
    destruct (Prim2SF x) as [s | s | | s m e]; cbn; eauto. }
  destruct Hq as [Hq | [s Hq]].
  - now rewrite (is_nan_Prim2SF _ Hq).
  - rewrite (is_infinity_Prim2SF _ _ Hq), orb_true_r. reflexivity.
Qed.

(** Zero times anything, divided by a positive number and then by zero, is a
    NaN. *)
Lemma zero_mul_div_div_nan (x d : f64) (m : positive) (e : Z) :
  Prim2SF d = S754_finite false m e ->
  Prim2SF (0 * x / d / 0)%float = S754_nan.
Proof.
  intros Hd. rewrite !FloatAxioms.div_spec, FloatAxioms.mul_spec, Hd.
  change (Prim2SF 0%float) with (S754_zero false).
  destruct (Prim2SF x) as [s | s | | s mx ex]; reflexivity.
Qed.

(** ** The settings *)

(** [POINTS * DIMENSION] does not wrap. *)
Lemma SIZE_value : Settings.SIZE = 3000000000.
Proof. reflexivity. Qed.

Lemma REPLICATES_value : Settings.REPLICATES = 10.
Proof. reflexivity. Qed.

(** One simulation of [POINTS] points draws one block of [SIZE] values. *)
Lemma settings_block :
  (3 * Z.to_nat Settings.POINTS)%nat = Z.to_nat Settings.SIZE.
Proof. rewrite SIZE_value. unfold Settings.POINTS. lia. Qed.

(** ** The sampling loop *)

Section Sampling.
Context {E F : Type} `{HepRandomEngine E F}.

Lemma discard_add (a b : nat) (r : E) :
  discard (a + b) r = discard b (discard a r).
Proof.
  revert r; induction a as [|a IH]; intros r; simpl; [reflexivity | apply IH].
Qed.

Lemma draws_add (a b : nat) (r : E) :
  draws (a + b) r = draws a r ++ draws b (discard a r).
Proof.
  revert r; induction a as [|a IH]; intros r; simpl; [reflexivity|].
  now rewrite IH.
Qed.

Lemma draws_head (n : nat) (r : E) :
  (0 < n)%nat -> hd_error (draws n r) = Some (fst (flat r)).
Proof. destruct n; [lia | reflexivity]. Qed.

Lemma insideCount_step (n : nat) (r : E) :
  insideCount (draws (3 * S n) r) =
  (if inside (fst (flat r)) (fst (flat (snd (flat r))))
             (fst (flat (snd (flat (snd (flat r))))))
   then 1 else 0) + insideCount (draws (3 * n) (discard 3 r)).
Proof.
  replace (3 * S n)%nat with (S (S (S (3 * n)))) by lia.
  unfold insideCount; simpl draws; simpl triples; simpl discard.
  simpl List.filter.
  destruct (inside _ _ _); simpl length; lia.
Qed.

Lemma insideCount_bounds (n : nat) (r : E) :
  0 <= insideCount (draws (3 * n) r) <= Z.of_nat n.
Proof.
  revert r; induction n as [|n IH]; intros r.
  - unfold insideCount; simpl; lia.
  - rewrite insideCount_step. specialize (IH (discard 3 r)).
    destruct (inside _ _ _); lia.
Qed.

(** The invariant of the sampling loop: the counter never wraps. *)
Lemma sample_spec (n : nat) (r : E) (acc : Z) :
  0 <= acc -> acc + Z.of_nat n < 2 ^ 32 ->
  sample n r acc =
  (discard (3 * n) r, acc + insideCount (draws (3 * n) r)).
Proof.
  revert r acc; induction n as [|n IH]; intros r acc Hacc Hlt.
  - unfold insideCount; simpl. f_equal. lia.
  - rewrite insideCount_step.
    replace (3 * S n)%nat with (3 + 3 * n)%nat by lia.
    rewrite discard_add. cbn [sample discard].
    destruct (flat r) as [x r1] eqn:E1; cbn [fst snd].
    destruct (flat r1) as [y r2] eqn:E2; cbn [fst snd].
    destruct (flat r2) as [z r3] eqn:E3; cbn [fst snd].
    destruct (inside x y z).
    + unfold wrap32. rewrite Z.mod_small by lia.
      rewrite IH by lia. f_equal. lia.
    + rewrite IH by lia. f_equal.
Qed.

(** Whatever the counter does, the loop draws three values per point. *)
Lemma sample_engine (n : nat) (r : E) (acc : Z) :
  fst (sample n r acc) = discard (3 * n) r.
Proof.
  revert r acc; induction n as [|n IH]; intros r acc; [reflexivity|].
  replace (3 * S n)%nat with (3 + 3 * n)%nat by lia.
  rewrite discard_add. cbn [sample discard].
  destruct (flat r) as [x r1]; cbn [fst snd].
  destruct (flat r1) as [y r2]; cbn [fst snd].
  destruct (flat r2) as [z r3]; cbn [fst snd].
  apply IH.
Qed.

Lemma simulate_rng (points : Z) (elapsed : f64) (st : State E) :
  rng (simulate points elapsed st) = discard (3 * Z.to_nat points) (rng st).
Proof.
  unfold simulate. rewrite <- (sample_engine _ _ 0).
  now destruct (sample _ _ _).
Qed.

Lemma simulate_value (points : Z) (elapsed : f64) (st : State E) :
  value (simulate points elapsed st) =
  (8 * f64_of_u32 (snd (sample (Z.to_nat points) (rng st) 0))
   / f64_of_u32 points)%float.
Proof. unfold simulate. now destruct (sample _ _ _). Qed.

(** C1. For every [points >= 1] and every engine state, the run draws
    exactly [3 * points] values (the engine ends [3 * points] draws further),
    counts the consecutive triples of those draws with [x*x + y*y + z*z < 1],
    and returns [8 * count / points]. *)
Theorem computeSphereVolume_estimate (points : Z) (elapsed : f64) (st : State E) :
  1 <= points < 2 ^ 32 ->
  let n := (3 * Z.to_nat points)%nat in
  let count := insideCount (draws n (rng st)) in
  0 <= count <= points /\
  outcome (computeSphereVolume points elapsed st) =
  inr {| rng := discard n (rng st);
         value := (8 * f64_of_u32 count / f64_of_u32 points)%float;
         duration := elapsed |}.
Proof.
  intros Hp n count. split.
  - pose proof (insideCount_bounds (Z.to_nat points) (rng st)).
    subst count n. lia.
  - unfold computeSphereVolume, simulate.
    rewrite sample_spec by lia. reflexivity.
Qed.

(** C10. With [points = 0] the loop body never runs: the engine is left as it
    was, the estimate is [8 * 0 / 0], a NaN, and the run returns normally. *)
Theorem computeSphereVolume_zero_points (elapsed : f64) (st : State E) :
  exists st',
    outcome (computeSphereVolume 0 elapsed st) = inr st' /\
    rng st' = rng st /\
    value st' = (8 * f64_of_u32 0 / f64_of_u32 0)%float /\
    PrimFloat.is_nan (value st') = true.
Proof.
  exists (simulate 0 elapsed st). repeat split.
Qed.

End Sampling.

(** Five points on the counter engine: four of them fall inside. *)
Lemma computeSphereVolume_estimate_witness :
  outcome (computeSphereVolume 5 0.25%float
             {| rng := 0; value := 0%float; duration := 0%float |}) =
  inr {| rng := 15; value := 6.4%float; duration := 0.25%float |}.
Proof.
  destruct (computeSphereVolume_estimate 5 0.25%float
              {| rng := 0; value := 0%float; duration := 0%float |}) as [_ ->];
    [lia | reflexivity].
Defined.

(** ** The report *)

Lemma fold_sums (values : list f64) (a b : f64) :
  fold_left
    (fun '(mean, squared_mean) v => ((mean + v)%float, (squared_mean + v * v)%float))
    values (a, b) =
  (fold_left (fun acc v => (acc + v)%float) values a,
   fold_left (fun acc v => (acc + v * v)%float) values b).
Proof.
  revert a b; induction values as [|v values IH]; intros a b; simpl;
    [reflexivity | apply IH].
Qed.

Lemma sums_total (values : list f64) :
  sums values = (total values, total_squares values).
Proof. apply fold_sums. Qed.

(** C2. For [K >= 2] estimates the report holds [mean = sum / K],
    [variance = sum of squares / K - mean * mean] (the population variance),
    [ub_variance = K * variance / (K - 1)] and the standard deviation
    [sqrt variance]; on the estimates 4.1, 4.2, 4.3 these are 4.2,
    0.00666..., 0.01 and 0.08165 up to rounding. *)
Theorem statistics_formulas (values : list f64) :
  let K := Z.of_nat (length values) in
  2 <= K < 2 ^ 32 ->
  let mean := (total values / f64_of_u32 K)%float in
  let variance := (total_squares values / f64_of_u32 K - mean * mean)%float in
  let r := statistics values K in
  (r_mean r = mean /\
   r_variance r = variance /\
   r_ub_variance r = (f64_of_u32 K * variance / f64_of_u32 (K - 1))%float /\
   r_std_deviation r = PrimFloat.sqrt variance) /\
  let r3 := statistics [4.1; 4.2; 4.3]%float 3 in
  r_mean r3 = 4.2%float /\
  within (r_variance r3) 0.00666666666666 0.00666666666667 = true /\
  within (r_ub_variance r3) 0.00999999999999 0.01000000000001 = true /\
  within (r_std_deviation r3) 0.081645 0.081655 = true.
Proof.
  intros K HK mean variance r. split.
  - subst r. unfold statistics, moments. rewrite sums_total.
    unfold summary; cbn [r_mean r_variance r_ub_variance r_std_deviation].
    unfold wrap32. rewrite Z.mod_small by lia. repeat split.
  - vm_compute. repeat split.
Qed.

Lemma statistics_formulas_witness :
  let values := [4.1; 4.2; 4.3]%float in
  let r := statistics values 3 in
  r_mean r = (total values / f64_of_u32 3)%float /\
  r_ub_variance r = (f64_of_u32 3 * r_variance r / f64_of_u32 2)%float.
Proof.
  destruct (statistics_formulas [4.1; 4.2; 4.3]%float) as [(Hm & Hv & Hu & _) _];
    [simpl; lia |].
  intros values r. split; [exact Hm | exact Hu].
Defined.

(** ** The Student coefficient *)

Lemma student_entry (K : Z) : student K = entry (student_index K).
Proof. reflexivity. Qed.

(** The coefficient is constant on each bucket: it suffices to know the
    quotient that selects the entry. *)
Lemma student_tens (K q : Z) :
  31 <= K <= 60 -> K / 10 = q -> student K = entry (27 + q).
Proof.
  intros HK <-. rewrite student_entry. unfold student_index.
  destruct (Z.leb_spec K 30); [lia|].
  destruct (Z.leb_spec K 60); [reflexivity | lia].
Qed.

Lemma student_twenties (K q : Z) :
  61 <= K < 140 -> K / 20 = q -> student K = entry (30 + q).
Proof.
  intros HK <-. rewrite student_entry. unfold student_index.
  destruct (Z.leb_spec K 30); [lia|].
  destruct (Z.leb_spec K 60); [lia|].
  destruct (Z.ltb_spec K 140); [reflexivity | lia].
Qed.

(** C3, as the code has it.  The entry at index [K] is used for [K] in
    [0, 30], index 0 holding the infinite coefficient; [K] in [31, 60] uses
    the entry of its ten, [K] in [60, 140) the entry of its twenty, and
    [K >= 140] the last entry, 2.576. *)
Theorem student_tiers (K : Z) :
  0 <= K ->
  (K <= 30 -> student K = entry K) /\
  (31 <= K <= 60 -> student K = entry (27 + K / 10)) /\
  (60 <= K < 140 -> student K = entry (30 + K / 20)) /\
  (140 <= K -> student K = 2.576%float) /\
  student 0 = infinity /\
  (31 <= K < 40 -> student K = 2.75%float) /\
  (40 <= K < 50 -> student K = 2.704%float) /\
  (50 <= K < 60 -> student K = 2.678%float) /\
  (60 <= K < 80 -> student K = 2.66%float) /\
  (80 <= K < 100 -> student K = 2.639%float) /\
  (100 <= K < 120 -> student K = 2.626%float) /\
  (120 <= K < 140 -> student K = 2.617%float).
Proof.
  intros HK.
  assert (H60 : student 60 = entry 33) by reflexivity.
  repeat split; try reflexivity; intros HR.
  - rewrite student_entry. unfold student_index.
    destruct (Z.leb_spec K 30); [reflexivity | lia].
  - now apply student_tens.
  - destruct (Z.eq_dec K 60) as [-> | Hne]; [exact H60|].
    apply student_twenties; [lia | reflexivity].
  - rewrite student_entry. unfold student_index.
    destruct (Z.leb_spec K 30); [lia|].
    destruct (Z.leb_spec K 60); [lia|].
    destruct (Z.ltb_spec K 140); [lia | reflexivity].
  - rewrite (student_tens K 3); [reflexivity | lia |].
    symmetry; apply Z.div_unique with (r := K - 30); lia.
  - rewrite (student_tens K 4); [reflexivity | lia |].
    symmetry; apply Z.div_unique with (r := K - 40); lia.
  - rewrite (student_tens K 5); [reflexivity | lia |].
    symmetry; apply Z.div_unique with (r := K - 50); lia.
  - destruct (Z.eq_dec K 60) as [-> | Hne]; [reflexivity|].
    rewrite (student_twenties K 3); [reflexivity | lia |].
    symmetry; apply Z.div_unique with (r := K - 60); lia.
  - rewrite (student_twenties K 4); [reflexivity | lia |].
    symmetry; apply Z.div_unique with (r := K - 80); lia.
  - rewrite (student_twenties K 5); [reflexivity | lia |].
    symmetry; apply Z.div_unique with (r := K - 100); lia.
  - rewrite (student_twenties K 6); [reflexivity | lia |].
    symmetry; apply Z.div_unique with (r := K - 120); lia.
Qed.

Lemma student_tiers_witness :
  student 45 = entry (27 + 45 / 10) /\ student 45 = 2.704%float.
Proof.
  destruct (student_tiers 45) as (_ & Ht & _ & _ & _ & _ & Hv & _); [lia|].
  split; [apply Ht | apply Hv]; lia.
Defined.

(** At [K = 31] the coefficient is the entry of the ten, at index 30, and
    differs from the entry at index [K]. *)
Lemma student_31_not_entry_31 :
  ~ (forall K, 1 <= K <= 31 -> student K = entry K).
Proof.
  intros Hall. specialize (Hall 31 ltac:(lia)).
  revert Hall. apply f64_neq. vm_compute. discriminate.
Qed.

(** ** Location of the true value *)

(** C7. The location percentage of the report is
    [(real_value - mean + R) * 100 / R] with [R] the confidence radius,
    replaced by [200 - location] when it exceeds 100; [real_value] is 4pi/3,
    4.18879 to five decimals.  For [mean = 4.2], [R = 0.5] and a true value
    of 4.18879 the error is -0.01121 and the location is 97.76% to two
    decimals. *)
Theorem location_formula (mean variance : f64) (K : Z) :
  let r := summary mean variance K in
  let R := r_radius r in
  let location := ((real_value - mean + R) * 100 / R)%float in
  r_error r = (real_value - mean)%float /\
  r_location r = location_percent (r_error r) R /\
  r_location r = (if (100 <? location)%float then (200 - location)%float
                  else location) /\
  real_value = (4 * pi / 3)%float /\
  within real_value 4.188785 4.188795 = true /\
  within (4.18879 - 4.2)%float (-0.011210001) (-0.011209999) = true /\
  within (location_percent (4.18879 - 4.2) 0.5)%float 97.755 97.765 = true /\
  location_percent 0.25 0.5 = 50%float.
Proof.
  repeat split.
Qed.

(** ** Degenerate replicate counts *)

(** Line 96 expects [R = inf] for [replicates = 0]; the radius is then
    [sqrt (0 * variance / (2^32 - 1) / 0) * inf], a NaN. *)
Lemma radius_zero_replicates (mean variance : f64) :
  PrimFloat.is_nan (r_radius (summary mean variance 0)) = true.
Proof.
  cbn [summary r_radius]. unfold radius.
  apply is_nan_Prim2SF.
  rewrite FloatAxioms.mul_spec, FloatAxioms.sqrt_spec.
  change (f64_of_u32 0) with 0%float.
  rewrite (zero_mul_div_div_nan variance (f64_of_u32 (wrap32 (0 - 1)))
             9007199252643840 (-21)) by reflexivity.
  reflexivity.
Qed.

(** C5, as the code has it.  [printResult] has no failure path: with [K = 0]
    or [K = 1] it returns normally and prints the report.  With [K = 1] the
    unbiased variance is a quotient by zero, a NaN or an infinity; with
    [K = 0] the divisor [K - 1] wraps to [2^32 - 1]; the mean step of [main]
    with no estimate is [0 / 0], a NaN. *)
Theorem printResult_degenerate (mean variance : f64) :
  (outcome (printResult mean variance 0) = inr tt /\
   printed (printResult mean variance 0) = [Results (summary mean variance 0)] /\
   r_ub_variance (summary mean variance 0) =
     (0 * variance / f64_of_u32 (2 ^ 32 - 1))%float) /\
  (outcome (printResult mean variance 1) = inr tt /\
   printed (printResult mean variance 1) = [Results (summary mean variance 1)] /\
   r_ub_variance (summary mean variance 1) = (1 * variance / 0)%float /\
   PrimFloat.is_finite (r_ub_variance (summary mean variance 1)) = false) /\
  PrimFloat.is_nan (r_mean (statistics [] 0)) = true.
Proof.
  repeat split. apply div_zero_not_finite.
Qed.

(** With one estimate the report is printed, no error is raised, and the
    unbiased variance in it is a NaN. *)
Lemma printResult_one_replicate_prints_nan :
  let '(mean, variance) := moments [4.2%float] 1 in
  ~ (exists e, outcome (printResult mean variance 1) = inl e) /\
  exists r,
    printed (printResult mean variance 1) = [Results r] /\
    PrimFloat.is_nan (r_ub_variance r) = true.
Proof.
  vm_compute. split.
  - intros [e He]. discriminate He.
  - eexists. split; reflexivity.
Qed.

(** ** Computations that print *)

Lemma printed_bind {A B} (m : IO A) (k : A -> IO B) (a : A) :
  outcome m = inr a -> printed (bind m k) = printed m ++ printed (k a).
Proof.
  destruct m as [l [e | a']]; cbn; intros Ho; inversion Ho; subst.
  now destruct (k a).
Qed.

Lemma outcome_bind {A B} (m : IO A) (k : A -> IO B) (a : A) :
  outcome m = inr a -> outcome (bind m k) = outcome (k a).
Proof.
  destruct m as [l [e | a']]; cbn; intros Ho; inversion Ho; subst.
  now destruct (k a).
Qed.

Lemma bind_raised {A B} (m : IO A) (k : A -> IO B) (e : exn) :
  outcome m = inl e -> bind m k = (printed m, inl e).
Proof.
  destruct m as [l [e' | a]]; cbn; intros Ho; inversion Ho; now subst.
Qed.

Lemma printed_check (v r : f64) :
  printed (check v r) =
  [if bits_of_f64 v =? bits_of_f64 r then ReproConfirmed
   else ReproIssue v (bits_of_f64 v) r (bits_of_f64 r)].
Proof. unfold check, same_bits. now destruct (_ =? _). Qed.

Lemma outcome_check (v r : f64) : outcome (check v r) = inr tt.
Proof. unfold check. now destruct (same_bits v r). Qed.

Lemma only_loading (log : list event) :
  forallb is_loading log = true ->
  List.filter is_estimation log = [] /\ (forall r, ~ In (Results r) log).
Proof.
  intros Hp. split.
  - induction log as [|e log IH]; [reflexivity|].
    cbn in Hp. apply andb_prop in Hp as [He Hp].
    destruct e; try discriminate. cbn. now apply IH.
  - intros r Hin. rewrite forallb_forall in Hp.
    specialize (Hp _ Hin). discriminate.
Qed.

Lemma estimations_loading (i : Z) (n : nat) :
  List.filter is_estimation (loading_log i n) = [].
Proof. revert i; induction n as [|n IH]; intros i; cbn; [reflexivity | apply IH]. Qed.

(** ** The loops of [main] *)

Section Loops.
Context {E F : Type} `{HepRandomEngine E F}.

Lemma load_all_length (fs : F) (i : Z) (states : list (State E)) :
  length (load_all fs i states) = length states.
Proof.
  revert i; induction states as [|st rest IH]; intros i; cbn;
    [reflexivity | now rewrite IH].
Qed.

Lemma simulate_all_length (points : Z) (elapsed : nat -> f64) (i : nat)
  (states : list (State E)) :
  length (simulate_all points elapsed i states) = length states.
Proof.
  revert i; induction states as [|st rest IH]; intros i; cbn;
    [reflexivity | now rewrite IH].
Qed.

Lemma initRng_raises (fs : F) (seq : Z) (st : State E) :
  restoreStatus (status_name seq) fs (rng st) = None ->
  initRng fs seq st =
  ([Loading (status_name seq)], inl (StateLoadError (status_name seq))).
Proof. intros Hr. unfold initRng. now rewrite Hr. Qed.

Lemma initRng_loads (fs : F) (seq : Z) (st : State E) (r : E) :
  restoreStatus (status_name seq) fs (rng st) = Some r ->
  initRng fs seq st =
  ([Loading (status_name seq)],
   inr {| rng := r; value := value st; duration := duration st |}).
Proof. intros Hr. unfold initRng. now rewrite Hr. Qed.

(** The loading loop stops at the first status that raises, and has printed
    nothing but the names it tried. *)
Lemma initRng_loop_raises (fs : F) (states : list (State E)) (i : Z)
  (k : nat) (st : State E) :
  nth_error states k = Some st ->
  restoreStatus (status_name (i + Z.of_nat k)) fs (rng st) = None ->
  (exists k' st', (k' <= k)%nat /\ nth_error states k' = Some st' /\
     restoreStatus (status_name (i + Z.of_nat k')) fs (rng st') = None /\
     outcome (initRng_loop fs i states) =
       inl (StateLoadError (status_name (i + Z.of_nat k')))) /\
  forallb is_loading (printed (initRng_loop fs i states)) = true.
Proof.
  revert i k; induction states as [|s0 rest IH]; intros i k Hk Hnone.
  - destruct k; discriminate.
  - cbn [initRng_loop].
    destruct (restoreStatus (status_name i) fs (rng s0)) as [r|] eqn:Hi.
    + destruct k as [|k].
      { injection Hk as ->. rewrite Z.add_0_r in Hnone. congruence. }
      cbn [nth_error] in Hk.
      replace (i + Z.of_nat (S k)) with (i + 1 + Z.of_nat k) in Hnone by lia.
      destruct (IH (i + 1) k Hk Hnone) as [(k' & st' & Hk' & Hn' & Hr' & Ho) Hp].
      rewrite (initRng_loads _ _ _ _ Hi).
      cbn [bind]. rewrite (bind_raised _ _ _ Ho).
      split; [|exact Hp].
      exists (S k'), st'. split; [lia|]. split; [exact Hn'|].
      replace (i + Z.of_nat (S k')) with (i + 1 + Z.of_nat k') by lia.
      split; [assumption | reflexivity].
    + rewrite (initRng_raises _ _ _ Hi). split; [|reflexivity].
      exists 0%nat, s0. rewrite Z.add_0_r.
      split; [lia|]. split; [reflexivity|]. split; [assumption | reflexivity].
Qed.

Lemma initRng_loop_returns (fs : F) (states : list (State E)) (i : Z) :
  (forall k e, (k < length states)%nat ->
     restoreStatus (status_name (i + Z.of_nat k)) fs e <> None) ->
  initRng_loop fs i states =
  (loading_log i (length states), inr (load_all fs i states)).
Proof.
  revert i; induction states as [|st rest IH]; intros i Hall; [reflexivity|].
  cbn [initRng_loop load_all loading_log length].
  destruct (restoreStatus (status_name i) fs (rng st)) as [r|] eqn:Hi.
  - rewrite (initRng_loads _ _ _ _ Hi), IH;
      [cbn [bind ret app]; now rewrite app_nil_r|].
    intros k e Hk. replace (i + 1 + Z.of_nat k) with (i + Z.of_nat (S k)) by lia.
    apply Hall. cbn [length]. lia.
  - exfalso. apply (Hall 0%nat (rng st)); [cbn; lia|].
    now rewrite Z.add_0_r.
Qed.

Lemma join_loop_returns (points : Z) (elapsed : nat -> f64) (i : nat)
  (states : list (State E)) :
  join_loop points elapsed i states =
  (estimation_log (simulate_all points elapsed i states),
   inr (simulate_all points elapsed i states)).
Proof.
  revert i; induction states as [|st rest IH]; intros i; [reflexivity|].
  cbn [join_loop simulate_all]. rewrite IH.
  unfold computeSphereVolume. cbn [bind emit ret app estimation_log map].
  now rewrite app_nil_r.
Qed.

Lemma sequential_loop_cons (points : Z) (elapsed : nat -> f64) (i : nat)
  (st : State E) (rest : list (State E)) (r : f64) (rs : list f64) (total : f64) :
  let st' := simulate points (elapsed i) st in
  let tail := sequential_loop points elapsed (S i) rest rs
                (total + duration st')%float in
  printed (sequential_loop points elapsed i (st :: rest) (r :: rs) total) =
    replicate_log st' r ++ printed tail /\
  outcome (sequential_loop points elapsed i (st :: rest) (r :: rs) total) =
    outcome tail.
Proof.
  intros st' tail. cbn [sequential_loop]. fold st'.
  rewrite (printed_bind _ _ st'), (outcome_bind _ _ st') by reflexivity.
  rewrite (printed_bind _ _ tt), (outcome_bind _ _ tt) by apply outcome_check.
  rewrite printed_check. fold tail. split; reflexivity.
Qed.

Lemma sequential_loop_returns (points : Z) (elapsed : nat -> f64) (i : nat)
  (states : list (State E)) (results : list f64) (total : f64) :
  length results = length states ->
  sequential_loop points elapsed i states results total =
  (verdict_log (simulate_all points elapsed i states) results,
   inr (total_duration (simulate_all points elapsed i states) total)).
Proof.
  revert i results total; induction states as [|st rest IH];
    intros i results total Hlen.
  - destruct results; [reflexivity | discriminate].
  - destruct results as [|r rs]; [discriminate|]. injection Hlen as Hlen.
    destruct (sequential_loop_cons points elapsed i st rest r rs total)
      as [Hp Ho].
    rewrite (surjective_pairing (sequential_loop _ _ _ (st :: rest) _ _)).
    change (fst ?m) with (printed m). change (snd ?m) with (outcome m).
    rewrite Hp, Ho, (IH _ _ _ Hlen). reflexivity.
Qed.

Lemma estimations_estimation (runs : list (State E)) :
  length (List.filter is_estimation (estimation_log runs)) = length runs.
Proof.
  unfold estimation_log.
  induction runs as [|st runs IH]; [reflexivity|].
  cbn [map List.filter is_estimation length]. now rewrite IH.
Qed.

Lemma estimations_verdicts (runs : list (State E)) (results : list f64) :
  length results = length runs ->
  length (List.filter is_estimation (verdict_log runs results)) = length runs.
Proof.
  revert results; induction runs as [|st runs IH]; intros [|r rs] Hlen;
    try discriminate; [reflexivity|].
  injection Hlen as Hlen. unfold verdict_log.
  cbn [combine map concat replicate_log app List.filter is_estimation].
  destruct (_ =? _); cbn [List.filter is_estimation length];
    f_equal; now apply IH.
Qed.

End Loops.

(** ** The sequential pass *)

Section SequentialPass.
Context {E F : Type} `{HepRandomEngine E F}.

(** C8. Each replicate of the sequential pass is run and its estimate is
    compared with the recorded one by the bit patterns of the two doubles:
    the verdict is "confirmed" exactly when the patterns are equal, that is
    when the two doubles are the same IEEE-754 datum, no tolerance applied.
    Whatever the verdicts, every replicate prints its estimate and its
    verdict, in index order, and the pass returns the sum of all the measured
    durations, which [main] prints. *)
Theorem sequential_loop_spec (points : Z) (elapsed : nat -> f64) (i : nat)
  (states : list (State E)) (results : list f64) (total : f64) :
  length results = length states ->
  let runs := simulate_all points elapsed i states in
  let pass := sequential_loop points elapsed i states results total in
  printed pass = verdict_log runs results /\
  outcome pass = inr (total_duration runs total) /\
  length (List.filter is_estimation (printed pass)) = length states /\
  (forall v r, printed (check v r) = [ReproConfirmed] <->
               bits_of_f64 v = bits_of_f64 r) /\
  (forall v r, printed (check v r) = [ReproConfirmed] <-> v = r) /\
  (forall v r, outcome (check v r) = inr tt).
Proof.
  intros Hlen runs pass. subst pass runs.
  rewrite sequential_loop_returns by assumption.
  assert (Hbits : forall v r, printed (check v r) = [ReproConfirmed] <->
                              bits_of_f64 v = bits_of_f64 r).
  { intros v r. rewrite printed_check.
    destruct (Z.eqb_spec (bits_of_f64 v) (bits_of_f64 r)) as [Heq | Hne].
    - split; [intros _; exact Heq | reflexivity].
    - split; [discriminate | intros Heq; now destruct Hne]. }
  cbn [printed outcome fst snd].
  split; [reflexivity|]. split; [reflexivity|].
  split; [rewrite estimations_verdicts
            by (now rewrite simulate_all_length);
          apply simulate_all_length|].
  split; [exact Hbits|]. split; [|apply outcome_check].
  intros v r. rewrite Hbits. split; [apply bits_of_f64_inj | now intros ->].
Qed.

End SequentialPass.

(** Three replicates of two points; the recorded result of the second one is
    off by one unit in the last place. *)
Lemma sequential_loop_spec_witness :
  let elapsed := fun i : nat =>
    match i with O => 0.5 | 1%nat => 0.25 | _ => 0.125 end%float in
  let states := [Build_State 0 0%float 0%float; Build_State 6 0%float 0%float;
                 Build_State 12 0%float 0%float] in
  let results := [8; 0x1.0000000000001p+2; 4]%float in
  let pass := sequential_loop 2 elapsed 0 states results 0%float in
  printed pass =
    [Estimation 8 0x4020000000000000 0.5; ReproConfirmed;
     Estimation 4 0x4010000000000000 0.25;
     ReproIssue 4 0x4010000000000000 0x1.0000000000001p+2 0x4010000000000001;
     Estimation 4 0x4010000000000000 0.125; ReproConfirmed] /\
  outcome pass = inr 0.875%float.
Proof.
  intros elapsed states results pass.
  destruct (sequential_loop_spec 2 elapsed 0 states results 0%float)
    as (Hp & Ho & _); [reflexivity|].
  fold pass in Hp, Ho. rewrite Hp, Ho. split; reflexivity.
Defined.

(** ** The whole run *)

Section WholeRun.
Context {E F : Type} `{HepRandomEngine E F}.

Lemma nth_error_initial (initial : nat -> State E) (n k : nat) :
  (k < n)%nat -> nth_error (map initial (seq 0 n)) k = Some (initial k).
Proof.
  intros Hk. rewrite nth_error_map, nth_error_seq.
  destruct (Nat.ltb_spec k n); [reflexivity | lia].
Qed.

(** If [restoreStatus] raises for some replicate, [main] ends with the load
    error of the first such replicate, having printed only the names of the
    files it tried. *)
Lemma main_raises (replicates points : Z) (fs : F)
  (initial : nat -> State E) (par_time seq_time : nat -> f64) (i : nat) :
  (i < Z.to_nat replicates)%nat ->
  restoreStatus (status_name (Z.of_nat i)) fs (rng (initial i)) = None ->
  let run := main_with replicates points fs initial par_time seq_time in
  (exists j, (j <= i)%nat /\
     restoreStatus (status_name (Z.of_nat j)) fs (rng (initial j)) = None /\
     outcome run = inl (StateLoadError (status_name (Z.of_nat j)))) /\
  forallb is_loading (printed run) = true /\
  List.filter is_estimation (printed run) = [] /\
  (forall r, ~ In (Results r) (printed run)).
Proof.
  intros Hi Hnone run.
  destruct (initRng_loop_raises fs
              (map initial (seq 0 (Z.to_nat replicates))) 0 i (initial i))
    as [(j & st' & Hj & Hn & Hr & Ho) Hp];
    [now apply nth_error_initial | assumption |].
  rewrite nth_error_initial in Hn by lia. injection Hn as <-.
  rewrite Z.add_0_l in Hr, Ho.
  assert (Hrun : run = (printed (initRng_loop fs 0
                   (map initial (seq 0 (Z.to_nat replicates)))),
                 inl (StateLoadError (status_name (Z.of_nat j))))).
  { subst run. unfold main_with. now rewrite (bind_raised _ _ _ Ho). }
  rewrite Hrun. cbn [outcome snd].
  change (printed (?l, _)) with l.
  split; [exists j; split; [lia | split; [assumption | reflexivity]] |].
  split; [exact Hp | now apply only_loading].
Qed.

(** When no status raises, [main_with] runs both passes to the end and
    returns 0; this is everything it prints, the lines of the threads in the
    order of its schedule. *)
Lemma main_returns (replicates points : Z) (fs : F)
  (initial : nat -> State E) (par_time seq_time : nat -> f64) :
  (forall k e, (k < Z.to_nat replicates)%nat ->
     restoreStatus (status_name (Z.of_nat k)) fs e <> None) ->
  let K := Z.to_nat replicates in
  let ran := simulate_all points par_time 0
               (load_all fs 0 (map initial (seq 0 K))) in
  let results := map value ran in
  let reran := simulate_all points seq_time 0 (load_all fs 0 ran) in
  main_with replicates points fs initial par_time seq_time =
  (loading_log 0 K ++ RunningThread :: estimation_log ran ++
     Results (statistics results replicates) :: RunningSequential ::
     loading_log 0 K ++ verdict_log reran results ++
     [SequentialTime (total_duration reran 0%float)],
   inr 0).
Proof.
  intros Hall K ran results reran.
  assert (HK : length (map initial (seq 0 K)) = K)
    by now rewrite length_map, length_seq.
  assert (Hran : length ran = K)
    by (subst ran; now rewrite simulate_all_length, load_all_length).
  unfold main_with. fold K.
  rewrite initRng_loop_returns, HK
    by (intros k e Hk; rewrite Z.add_0_l; apply Hall; lia).
  cbn [bind emit ret app]. rewrite join_loop_returns. fold ran.
  cbn [bind]. fold results. unfold statistics.
  destruct (moments results replicates) as [mean variance].
  unfold printResult. cbn [bind emit ret app].
  rewrite initRng_loop_returns, Hran
    by (intros k e Hk; rewrite Z.add_0_l; apply Hall; lia).
  cbn [bind].
  rewrite sequential_loop_returns
    by (subst results; now rewrite length_map, load_all_length).
  fold reran. cbn [bind emit ret app]. reflexivity.
Qed.

(** What the trace of a run without load error contains. *)
Lemma main_returns_summary (replicates points : Z) (fs : F)
  (initial : nat -> State E) (par_time seq_time : nat -> f64) :
  let K := Z.to_nat replicates in
  let run := main_with replicates points fs initial par_time seq_time in
  (forall i e, (i < K)%nat ->
     restoreStatus (status_name (Z.of_nat i)) fs e <> None) ->
  outcome run = inr 0 /\
  (exists r, In (Results r) (printed run)) /\
  length (List.filter is_estimation (printed run)) = (2 * K)%nat.
Proof.
  intros K run Hall. subst run. rewrite main_returns by assumption. fold K.
  set (ran := simulate_all points par_time 0 _).
  set (reran := simulate_all points seq_time 0 _).
  assert (Hran : length ran = K).
  { subst ran. now rewrite simulate_all_length, load_all_length,
      length_map, length_seq. }
  assert (Hreran : length reran = K).
  { subst reran. now rewrite simulate_all_length, load_all_length. }
  split; [reflexivity|]. cbn [printed fst]. split.
  - eexists. apply in_or_app. right. right.
    apply in_or_app. right. left. reflexivity.
  - rewrite List.filter_app, estimations_loading.
    cbn [app List.filter is_estimation].
    rewrite List.filter_app, length_app, estimations_estimation.
    cbn [List.filter is_estimation].
    rewrite List.filter_app, estimations_loading. cbn [app].
    rewrite List.filter_app, length_app, estimations_verdicts
      by (rewrite length_map; lia).
    cbn [List.filter is_estimation length]. lia.
Qed.

(** C6, as the code has it.  [main] makes no check of its own when it loads a
    status.  If [restoreStatus] raises for some replicate, the run ends with
    the load error of the first such replicate, having printed only the names
    of the files it tried: no simulation has run and no report is printed.
    If [restoreStatus] returns for every replicate, loaded or not, the run
    goes on: both passes simulate every replicate, the report is printed and
    [main] returns 0. *)
Theorem main_load_outcome (replicates points : Z) (fs : F)
  (initial : nat -> State E) (par_time seq_time : nat -> f64) :
  let K := Z.to_nat replicates in
  let run := main_with replicates points fs initial par_time seq_time in
  (forall i, (i < K)%nat ->
     restoreStatus (status_name (Z.of_nat i)) fs (rng (initial i)) = None ->
     (exists j, (j <= i)%nat /\
        restoreStatus (status_name (Z.of_nat j)) fs (rng (initial j)) = None /\
        outcome run = inl (StateLoadError (status_name (Z.of_nat j)))) /\
     forallb is_loading (printed run) = true /\
     List.filter is_estimation (printed run) = [] /\
     (forall r, ~ In (Results r) (printed run))) /\
  ((forall i e, (i < K)%nat ->
      restoreStatus (status_name (Z.of_nat i)) fs e <> None) ->
   outcome run = inr 0 /\
   (exists r, In (Results r) (printed run)) /\
   length (List.filter is_estimation (printed run)) = (2 * K)%nat).
Proof.
  intros K run. split.
  - intros i Hi Hnone. now apply (main_raises replicates points fs initial
                                    par_time seq_time i).
  - apply main_returns_summary.
Qed.

End WholeRun.

(** The status of replicate 1 is missing, and the engine raises. *)
Lemma main_load_outcome_witness :
  let fs : gmap string Z := {[ status_name 0 := 30; status_name 2 := 90 ]} in
  let initial := fun _ : nat => Build_State 0 0%float 0%float in
  let run := main_with 3 2 fs initial (fun _ => 0.5%float) (fun _ => 0.5%float) in
  outcome run = inl (StateLoadError "../status/status-01") /\
  printed run = [Loading "../status/status-00"; Loading "../status/status-01"] /\
  List.filter is_estimation (printed run) = [].
Proof.
  intros fs initial run.
  destruct (main_load_outcome 3 2 fs initial (fun _ => 0.5%float)
              (fun _ => 0.5%float)) as [Hraise _].
  destruct (Hraise 1%nat) as (_ & _ & Hnone & _); [cbn; lia | reflexivity |].
  split; [reflexivity | split; [reflexivity | exact Hnone]].
Defined.

(** No status file exists and the engine leaves itself unchanged when a file
    is missing: [main] runs every simulation, prints the report and returns
    0. *)
Lemma main_missing_status_runs :
  let fs : gmap string Z := ∅ in
  let initial := fun i : nat => Build_State (Z.of_nat i) 0%float 0%float in
  let run := @main Z _ Counter.quiet fs initial
               (fun _ => 0.5%float) (fun _ => 0.5%float) in
  (forall i, fs !! status_name i = None) /\
  ~ (exists e, outcome run = inl e) /\
  outcome run = inr 0 /\
  (exists r, In (Results r) (printed run)) /\
  List.filter is_estimation (printed run) <> [].
Proof.
  intros fs initial run. subst run. unfold main.
  destruct (@main_returns_summary Z _ Counter.quiet Settings.REPLICATES
              Settings.POINTS fs initial (fun _ => 0.5%float)
              (fun _ => 0.5%float)) as (Ho & Hr & Hlen);
    [intros i e _ Hq; discriminate Hq|].
  split; [intros i; apply lookup_empty|].
  split; [intros [e He]; rewrite Ho in He; discriminate He|].
  split; [exact Ho|]. split; [exact Hr|].
  intros Hnil. rewrite Hnil, REPLICATES_value in Hlen. discriminate Hlen.
Qed.

(** ** The status generator *)

(** A positive number never prints with a leading zero. *)
Lemma pretty_N_go_head (x : N) (s s' : string) :
  (0 < x)%N -> pretty_N_go x s <> String "0"%char s'.
Proof.
  revert s. induction (N.lt_wf_0 x) as [x _ IH]; intros s Hx.
  rewrite pretty_N_go_step by assumption.
  destruct (N.eq_dec (x / 10)%N 0%N) as [Hq | Hq].
  - rewrite Hq, pretty_N_go_0.
    apply N.div_small_iff in Hq; [|discriminate].
    rewrite N.mod_small by assumption.
    assert (Hc : (x = 1 \/ x = 2 \/ x = 3 \/ x = 4 \/ x = 5 \/ x = 6
                  \/ x = 7 \/ x = 8 \/ x = 9)%N) by lia.
    intros Heq; injection Heq as Heq _; revert Heq.
    repeat (destruct Hc as [-> | Hc]; [discriminate|]). subst; discriminate.
  - apply IH; [apply N.div_lt; lia | now apply N.neq_0_lt_0].
Qed.

Lemma pad2_inj (i j : Z) : pad2 i = pad2 j -> i = j.
Proof.
  assert (Hhead : forall a b, (0 <=? a) && (a <? 10) = true ->
                    (0 <=? b) && (b <? 10) = false ->
                    "0" +:+ pretty a <> pretty b).
  { intros a b Ha Hb Heq.
    destruct b as [|b|b].
    - discriminate.
    - revert Heq. unfold pretty at 2, pretty_Z, pretty, pretty_positive,
        pretty, pretty_N.
      rewrite decide_False by discriminate.
      intros Heq. symmetry in Heq. revert Heq.
      apply pretty_N_go_head. reflexivity.
    - discriminate. }
  unfold pad2.
  destruct ((0 <=? i) && (i <? 10)) eqn:Hi, ((0 <=? j) && (j <? 10)) eqn:Hj;
    intros Heq.
  - injection Heq as Heq. now apply (inj pretty).
  - now destruct (Hhead i j).
  - symmetry in Heq. now destruct (Hhead j i).
  - now apply (inj pretty).
Qed.

Lemma status_name_inj (i j : Z) : status_name i = status_name j -> i = j.
Proof.
  unfold status_name. intros Heq. apply pad2_inj.
  now apply (inj (String.append "../status/status-")) in Heq.
Qed.

Section StatusGenerator.
Context {E F : Type} `{HepRandomEngine E F}.

(** Files of earlier replicates are left alone by the rest of the loop. *)
Lemma genmt_loop_keeps (size : Z) (n : nat) (i : Z) (r : E) (fs : F) (j : Z)
  (e0 : E) :
  j < i ->
  restoreStatus (status_name j) (snd (genmt_loop size n i r fs)) e0 =
  restoreStatus (status_name j) fs e0.
Proof.
  revert i r fs; induction n as [|n IH]; intros i r fs Hj; [reflexivity|].
  cbn [genmt_loop]. rewrite IH by lia.
  apply restore_other. intros Heq. apply status_name_inj in Heq. lia.
Qed.

(** The status saved for replicate [j] is the master engine after
    [j - i + 1] blocks of [size] draws. *)
Lemma genmt_loop_saves (size : Z) (n : nat) (i : Z) (r : E) (fs : F) (k : nat)
  (e0 : E) :
  (k < n)%nat ->
  restoreStatus (status_name (i + Z.of_nat k))
    (snd (genmt_loop size n i r fs)) e0 =
  Some (discard ((k + 1) * Z.to_nat size) r).
Proof.
  revert i r fs k; induction n as [|n IH]; intros i r fs k Hk; [lia|].
  cbn [genmt_loop]. destruct k as [|k].
  - replace (i + Z.of_nat 0) with i by lia.
    rewrite genmt_loop_keeps by lia. rewrite restore_saved.
    f_equal. f_equal. lia.
  - replace (i + Z.of_nat (S k)) with (i + 1 + Z.of_nat k) by lia.
    rewrite IH by lia. f_equal.
    replace ((S k + 1) * Z.to_nat size)%nat
      with (Z.to_nat size + (k + 1) * Z.to_nat size)%nat by lia.
    now rewrite discard_add.
Qed.

Lemma genmt_loop_engine (size : Z) (n : nat) (i : Z) (r : E) (fs : F) :
  fst (genmt_loop size n i r fs) = discard (n * Z.to_nat size) r.
Proof.
  revert i r fs; induction n as [|n IH]; intros i r fs; [reflexivity|].
  cbn [genmt_loop]. rewrite IH.
  replace (S n * Z.to_nat size)%nat
    with (Z.to_nat size + n * Z.to_nat size)%nat by lia.
  now rewrite discard_add.
Qed.

(** Consecutive windows of a stream, one block apart, laid end to end. *)
Lemma concat_windows (B K : nat) (r : E) :
  concat (map (fun i => draws B (discard ((i + 1) * B) r)) (seq 0 K)) =
  draws (K * B) (discard B r).
Proof.
  induction K as [|K IH]; [reflexivity|].
  rewrite seq_S, map_app, concat_app, IH. cbn [map concat Nat.add].
  rewrite app_nil_r.
  replace (S K * B)%nat with (K * B + B)%nat by lia.
  rewrite draws_add, <- discard_add. do 3 f_equal. lia.
Qed.

Lemma replicate_draws_genmt (replicates size : Z) (fs : F) (e0 : E) (i : nat) :
  (i < Z.to_nat replicates)%nat ->
  replicate_draws (snd (genmt_with replicates size fs)) e0 (Z.to_nat size)
    (Z.of_nat i) =
  draws (Z.to_nat size)
    (discard ((i + 1) * Z.to_nat size) (MTwistEngine SEED)).
Proof.
  intros Hi. unfold replicate_draws, genmt_with.
  rewrite <- (Z.add_0_l (Z.of_nat i)).
  now rewrite genmt_loop_saves.
Qed.

Lemma concat_replicate_draws (replicates size : Z) (fs : F) (e0 : E) :
  concat (map (fun i => replicate_draws (snd (genmt_with replicates size fs))
                          e0 (Z.to_nat size) (Z.of_nat i))
            (seq 0 (Z.to_nat replicates))) =
  draws (Z.to_nat replicates * Z.to_nat size)
    (discard (Z.to_nat size) (MTwistEngine SEED)).
Proof.
  rewrite <- concat_windows. f_equal.
  apply map_ext_in. intros i Hi. apply in_seq in Hi.
  apply replicate_draws_genmt. lia.
Qed.

(** C4, as the code has it.  Each status is saved after its block of [size]
    draws has been discarded, so replicate [i] restores the master engine
    [(i + 1) * size] draws after the seed.  Its [size] draws are the master
    draws of that window, and a simulation of [size / 3] points leaves the
    engine at the start of the next window: the windows of different
    replicates do not overlap.  Laid end to end in index order, the draws of
    the replicates are the master draws that follow the first [size] ones. *)
Theorem genmt_streams (replicates size : Z) (fs : F) (e0 : E) :
  let master := MTwistEngine SEED in
  let B := Z.to_nat size in
  let K := Z.to_nat replicates in
  let fs' := snd (genmt_with replicates size fs) in
  (forall i, (i < K)%nat ->
     restoreStatus (status_name (Z.of_nat i)) fs' e0 =
       Some (discard ((i + 1) * B) master) /\
     replicate_draws fs' e0 B (Z.of_nat i) =
       draws B (discard ((i + 1) * B) master)) /\
  (forall i points elapsed st, (i < K)%nat ->
     (3 * Z.to_nat points)%nat = B ->
     restoreStatus (status_name (Z.of_nat i)) fs' e0 = Some (rng st) ->
     rng (simulate points elapsed st) = discard ((i + 2) * B) master) /\
  concat (map (fun i => replicate_draws fs' e0 B (Z.of_nat i)) (seq 0 K)) =
    draws (K * B) (discard B master) /\
  fst (genmt_with replicates size fs) = discard (K * B) master.
Proof.
  intros master B K fs'.
  assert (Hsaved : forall i, (i < K)%nat ->
            restoreStatus (status_name (Z.of_nat i)) fs' e0 =
            Some (discard ((i + 1) * B) master)).
  { intros i Hi. subst fs'. unfold genmt_with.
    rewrite <- (Z.add_0_l (Z.of_nat i)). now apply genmt_loop_saves. }
  split; [|split; [|split]].
  - intros i Hi. split; [now apply Hsaved | now apply replicate_draws_genmt].
  - intros i points elapsed st Hi Hpoints Hst.
    rewrite simulate_rng, Hpoints.
    rewrite (Hsaved i Hi) in Hst. injection Hst as <-.
    rewrite <- discard_add. f_equal. lia.
  - apply concat_replicate_draws.
  - apply genmt_loop_engine.
Qed.

End StatusGenerator.

(** The counter engine is [n] positions further after [n] draws. *)
Lemma counter_discard (n : nat) (p : Z) : discard n p = p + Z.of_nat n.
Proof.
  revert p; induction n as [|n IH]; intros p.
  - cbn [discard]. lia.
  - cbn [discard]. rewrite IH. cbn [flat Counter.engine Counter.next snd]. lia.
Qed.

(** Three replicates of two draws each, on the counter engine. *)
Lemma genmt_streams_witness :
  let fs' := snd (genmt_with 3 2 (∅ : gmap string Z)) in
  restoreStatus (status_name 1) fs' 0 = Some (SEED + 4) /\
  concat (map (fun i => replicate_draws fs' 0 2 (Z.of_nat i)) (seq 0 3)) =
    draws 6 (SEED + 2).
Proof.
  intros fs'.
  destruct (genmt_streams 3 2 (∅ : gmap string Z) 0) as (Hi & _ & Hc & _).
  split; [exact (proj1 (Hi 1%nat ltac:(cbn; lia))) | exact Hc].
Defined.

(** With the settings of [settings.h] and the counter engine, the draws of
    the ten replicates laid end to end are not the first draws of the master
    stream: they start one block later. *)
Lemma genmt_streams_not_master_prefix :
  let fs' := snd (genmt (∅ : gmap string Z)) in
  let B := Z.to_nat Settings.SIZE in
  let K := Z.to_nat Settings.REPLICATES in
  concat (map (fun i => replicate_draws fs' 0 B (Z.of_nat i)) (seq 0 K)) <>
  draws (K * B) (MTwistEngine SEED).
Proof.
  intros fs' B K Heq. subst fs'. unfold genmt in Heq.
  subst B K. rewrite concat_replicate_draws in Heq.
  assert (HB : (0 < Z.to_nat Settings.SIZE)%nat) by (rewrite SIZE_value; lia).
  assert (HK : (0 < Z.to_nat Settings.REPLICATES)%nat)
    by (rewrite REPLICATES_value; lia).
  assert (Hpos : (0 < Z.to_nat Settings.REPLICATES * Z.to_nat Settings.SIZE)%nat)
    by (apply Nat.mul_pos_pos; assumption).
  apply (f_equal hd_error) in Heq.
  rewrite !draws_head in Heq by assumption.
  rewrite counter_discard in Heq.
  rewrite Z2Nat.id, SIZE_value in Heq by (rewrite SIZE_value; lia).
  apply (inj Some) in Heq.
  revert Heq. apply f64_neq. vm_compute. discriminate.
Qed.


(** * Further properties *)

(** ** Names of the status files *)

(** X1. Two replicate numbers get the same status file name only when they
    are the same number: no status file is written or read for two
    replicates. *)
Theorem status_names_distinct (i j : Z) :
  status_name i = status_name j <-> i = j.
Proof.
  split; [apply status_name_inj | now intros ->].
Qed.

(** A number below [10^k] prints with at most [k] digits. *)
Lemma pretty_N_go_length (k : nat) (x : N) (s : string) :
  (x < 10 ^ N.of_nat k)%N ->
  (String.length (pretty_N_go x s) <= k + String.length s)%nat.
Proof.
  revert x s; induction k as [|k IH]; intros x s Hx.
  - assert (x = 0%N) as -> by (cbn in Hx; lia). now rewrite pretty_N_go_0.
  - destruct (N.eq_dec x 0%N) as [-> | Hne]; [rewrite pretty_N_go_0; lia|].
    rewrite pretty_N_go_step by lia.
    etransitivity; [apply IH | cbn [String.length]; lia].
    rewrite Nat2N.inj_succ, N.pow_succ_r' in Hx.
    apply N.Div0.div_lt_upper_bound. lia.
Qed.

Lemma pretty_Z_length (seq : Z) :
  - 2 ^ 31 <= seq < 2 ^ 31 -> (String.length (pretty seq) <= 11)%nat.
Proof.
  intros Hseq. destruct seq as [|p|p]; [cbn; lia | |].
  - unfold pretty, pretty_Z, pretty, pretty_positive, pretty, pretty_N.
    rewrite decide_False by discriminate.
    etransitivity; [apply (pretty_N_go_length 10)|cbn [String.length]; lia].
    change (10 ^ N.of_nat 10)%N with 10000000000%N. lia.
  - unfold pretty, pretty_Z, pretty, pretty_positive, pretty, pretty_N.
    rewrite decide_False by discriminate.
    change ("-" +:+ ?s) with (String "-" s). cbn [String.length].
    apply le_n_S.
    etransitivity; [apply (pretty_N_go_length 10)|cbn [String.length]; lia].
    change (10 ^ N.of_nat 10)%N with 10000000000%N. lia.
Qed.

Lemma append_length (a b : string) :
  String.length (a +:+ b) = (String.length a + String.length b)%nat.
Proof.
  induction a as [|c a IH]; [reflexivity|].
  change (String c a +:+ b) with (String c (a +:+ b)).
  cbn [String.length Nat.add]. now f_equal.
Qed.

(** X2. For every [int] replicate number the name written by [sprintf], with
    its terminating zero, fits the 30 characters of the buffer [s]; for the
    numbers 0 to 99 it has exactly 19 characters. *)
Theorem status_name_fits_buffer (seq : Z) :
  - 2 ^ 31 <= seq < 2 ^ 31 ->
  (String.length (status_name seq) + 1 <= 30)%nat /\
  (0 <= seq < 100 -> String.length (status_name seq) = 19%nat).
Proof.
  intros Hseq. unfold status_name. rewrite append_length.
  change (String.length "../status/status-") with 17%nat. split.
  - pose proof (pretty_Z_length seq Hseq) as Hlen. unfold pad2.
    destruct ((0 <=? seq) && (seq <? 10)); [|lia].
    rewrite append_length. cbn [String.length]. lia.
  - intros Hsmall.
    assert (Hall : forallb (fun n => (String.length (pad2 (Z.of_nat n)) =? 2)%nat)
                     (List.seq 0 100) = true) by (vm_compute; reflexivity).
    rewrite forallb_forall in Hall.
    specialize (Hall (Z.to_nat seq)).
    rewrite Z2Nat.id in Hall by lia.
    rewrite (proj1 (Nat.eqb_eq _ _) (Hall ltac:(apply in_seq; lia))).
    reflexivity.
Qed.

Lemma status_name_fits_buffer_witness :
  (String.length (status_name 7) + 1 <= 30)%nat /\
  String.length (status_name 7) = 19%nat /\
  (String.length (status_name (- 2147483648)) + 1 <= 30)%nat.
Proof.
  split; [|split].
  - apply (status_name_fits_buffer 7). lia.
  - apply (status_name_fits_buffer 7); lia.
  - apply (status_name_fits_buffer (- 2147483648)). lia.
Defined.

(** ** The table of Student coefficients *)

Lemma student_index_tiers (K : Z) :
  0 <= K ->
  (K <= 30 /\ student_index K = K) \/
  (31 <= K <= 60 /\ student_index K = 27 + K / 10 /\ 3 <= K / 10 <= 6) \/
  (61 <= K < 140 /\ student_index K = 30 + K / 20 /\ 3 <= K / 20 <= 6) \/
  (140 <= K /\ student_index K = 37).
Proof.
  intros HK. unfold student_index.
  destruct (Z.leb_spec K 30); [left; lia|].
  destruct (Z.leb_spec K 60).
  - right; left. split; [lia|]. split; [reflexivity|]. split.
    + apply Z.div_le_lower_bound; lia.
    + apply Z.div_le_upper_bound; lia.
  - destruct (Z.ltb_spec K 140); [|right; right; right; lia].
    right; right; left. split; [lia|]. split; [reflexivity|]. split.
    + apply Z.div_le_lower_bound; lia.
    + assert (K / 20 < 7) by (apply Z.div_lt_upper_bound; lia). lia.
Qed.

(** X3. Whatever the number of replicates, the index computed by the [if]
    chain of [printResult] lies inside the 38 entries of [STUDENT]: the table
    is never read out of bounds. *)
Theorem student_index_in_table (K : Z) :
  0 <= K ->
  0 <= student_index K < Z.of_nat (length STUDENT) /\
  nth_error STUDENT (Z.to_nat (student_index K)) = Some (student K).
Proof.
  intros HK.
  assert (Hidx : 0 <= student_index K < 38)
    by (destruct (student_index_tiers K HK) as [?|[?|[?|?]]]; lia).
  split; [exact Hidx|].
  unfold student. apply nth_error_nth'.
  change (length STUDENT) with 38%nat. lia.
Qed.

Lemma student_index_in_table_witness :
  0 <= student_index 4294967295 < Z.of_nat (length STUDENT) /\
  nth_error STUDENT (Z.to_nat (student_index 59)) = Some 2.678%float.
Proof.
  split.
  - apply (student_index_in_table 4294967295). lia.
  - apply (student_index_in_table 59). lia.
Defined.

Lemma student_index_monotone (K1 K2 : Z) :
  0 <= K1 <= K2 -> student_index K1 <= student_index K2.
Proof.
  intros HK.
  destruct (student_index_tiers K1 ltac:(lia)) as [H1|[H1|[H1|H1]]],
           (student_index_tiers K2 ltac:(lia)) as [H2|[H2|[H2|H2]]];
    try lia.
  - assert (K1 / 10 <= K2 / 10) by (apply Z.div_le_mono; lia). lia.
  - assert (K1 / 20 <= K2 / 20) by (apply Z.div_le_mono; lia). lia.
Qed.

(** The table decreases from entry to entry and ends at 2.576. *)
Lemma STUDENT_decreasing (i j : Z) :
  0 <= i <= j -> j < 38 ->
  (entry j <=? entry i)%float = true /\ (2.576 <=? entry j)%float = true.
Proof.
  intros Hij Hj.
  assert (Hall : forallb (fun a => forallb (fun b =>
                    implb (a <=? b)%nat
                      ((entry (Z.of_nat b) <=? entry (Z.of_nat a))%float
                       && (2.576 <=? entry (Z.of_nat b))%float))
                    (List.seq 0 38)) (List.seq 0 38) = true)
    by (vm_compute; reflexivity).
  rewrite forallb_forall in Hall.
  specialize (Hall (Z.to_nat i) ltac:(apply in_seq; lia)).
  rewrite forallb_forall in Hall.
  specialize (Hall (Z.to_nat j) ltac:(apply in_seq; lia)).
  rewrite !Z2Nat.id in Hall by lia.
  destruct (Nat.leb_spec (Z.to_nat i) (Z.to_nat j)); [|lia].
  cbn [implb] in Hall. now apply andb_prop in Hall.
Qed.

(** X4. The Student coefficient never grows with the number of replicates,
    and never falls below the asymptotic 2.576. *)
Theorem student_monotone (K1 K2 : Z) :
  0 <= K1 <= K2 ->
  (student K2 <=? student K1)%float = true /\
  (2.576 <=? student K2)%float = true.
Proof.
  intros HK. rewrite !student_entry.
  pose proof (student_index_monotone K1 K2 HK).
  destruct (student_index_tiers K1 ltac:(lia)) as [?|[?|[?|?]]],
           (student_index_tiers K2 ltac:(lia)) as [?|[?|[?|?]]];
    apply STUDENT_decreasing; lia.
Qed.

Lemma student_monotone_witness :
  (student 61 <=? student 60)%float = true /\
  (student 31 <=? student 30)%float = true /\
  (2.576 <=? student 1000)%float = true.
Proof.
  split; [apply (student_monotone 60 61); lia|].
  split; [apply (student_monotone 30 31); lia|].
  apply (student_monotone 0 1000); lia.
Defined.

(** ** Reports without a finite interval *)

Lemma not_finite_Prim2SF (x : f64) :
  Prim2SF x = S754_nan \/ (exists s, Prim2SF x = S754_infinity s) ->
  PrimFloat.is_finite x = false.
Proof.
  unfold PrimFloat.is_finite. intros [Hx | [s Hx]].
  - now rewrite (is_nan_Prim2SF _ Hx).
  - rewrite (is_infinity_Prim2SF _ _ Hx), orb_true_r. reflexivity.
Qed.

Lemma radius_zero_Prim2SF (variance : f64) :
  Prim2SF (radius (0 * variance / f64_of_u32 (wrap32 (0 - 1))) 0)%float =
  S754_nan.
Proof.
  unfold radius. rewrite FloatAxioms.mul_spec, FloatAxioms.sqrt_spec.
  change (f64_of_u32 0) with 0%float.
  rewrite (zero_mul_div_div_nan variance (f64_of_u32 (wrap32 (0 - 1)))
             9007199252643840 (-21)) by reflexivity.
  reflexivity.
Qed.

(** X5. With no replicate the radius is the square root of a quotient of zero
    by zero: whatever the mean and the variance, the radius, both bounds of
    the interval and the location in the report are NaN. *)
Theorem zero_replicates_report (mean variance : f64) :
  let r := summary mean variance 0 in
  PrimFloat.is_nan (r_radius r) = true /\
  PrimFloat.is_nan (r_interval_low r) = true /\
  PrimFloat.is_nan (r_interval_high r) = true /\
  PrimFloat.is_nan (r_location r) = true.
Proof.
  cbn [summary r_radius r_interval_low r_interval_high r_location].
  change (f64_of_u32 0) with 0%float.
  pose proof (radius_zero_Prim2SF variance) as HR.
  set (R := radius _ 0) in *.
  split; [now apply is_nan_Prim2SF|].
  split; [apply is_nan_Prim2SF; rewrite FloatAxioms.sub_spec, HR;
          now destruct (Prim2SF mean)|].
  split; [apply is_nan_Prim2SF; rewrite FloatAxioms.add_spec, HR;
          now destruct (Prim2SF mean)|].
  unfold location_percent.
  assert (Hloc : Prim2SF ((real_value - mean + R) * 100 / R)%float = S754_nan).
  { rewrite FloatAxioms.div_spec, HR.
    now destruct (Prim2SF ((real_value - mean + R) * 100)%float). }
  rewrite FloatAxioms.ltb_spec, Hloc.
  change (SFltb (Prim2SF 100%float) S754_nan) with false.
  now apply is_nan_Prim2SF.
Qed.

Lemma radius_one_Prim2SF (variance : f64) :
  let R := radius (1 * variance / 0)%float 1 in
  Prim2SF R = S754_nan \/ Prim2SF R = S754_infinity false.
Proof.
  unfold radius.
  rewrite FloatAxioms.mul_spec, FloatAxioms.sqrt_spec, !FloatAxioms.div_spec,
    FloatAxioms.mul_spec.
  change (Prim2SF 0%float) with (S754_zero false).
  change (Prim2SF (f64_of_u32 1)) with (Prim2SF 1%float).
  set (one := Prim2SF 1%float). vm_compute in one. subst one.
  set (c := Prim2SF (student 1)). vm_compute in c. subst c.
  destruct (Prim2SF variance) as [s | s | | s m e].
  - left. reflexivity.
  - destruct s; [left | right]; reflexivity.
  - left. reflexivity.
  - set (p := SF64mul _ (S754_finite s m e)).
    assert (Hq : SF64div p (S754_zero false) = S754_nan \/
                 exists b, SF64div p (S754_zero false) = S754_infinity b)
      by (destruct p as [b | b | | b pm pe]; cbn; eauto).
    destruct Hq as [-> | [b ->]]; [left; reflexivity|].
    destruct b; [left | right]; reflexivity.
Qed.

(** X6. With one replicate the unbiased variance is a quotient by zero, and
    so, whatever the mean and the variance, the radius and both bounds of the
    interval in the report are never finite numbers, and the location is a
    NaN. *)
Theorem one_replicate_report (mean variance : f64) :
  let r := summary mean variance 1 in
  PrimFloat.is_finite (r_radius r) = false /\
  PrimFloat.is_finite (r_interval_low r) = false /\
  PrimFloat.is_finite (r_interval_high r) = false /\
  PrimFloat.is_nan (r_location r) = true.
Proof.
  cbn [summary r_radius r_interval_low r_interval_high r_location].
  change (f64_of_u32 (wrap32 (1 - 1))) with 0%float.
  change (f64_of_u32 1) with 1%float.
  pose proof (radius_one_Prim2SF variance) as HR. cbv zeta in HR.
  set (R := radius _ 1) in *.
  split; [|split; [|split]]; try apply not_finite_Prim2SF.
  - destruct HR as [HR | HR]; [left | right; eexists]; exact HR.
  - rewrite FloatAxioms.sub_spec.
    destruct HR as [-> | ->], (Prim2SF mean) as [s | [|] | | s m e]; cbn; eauto.
  - rewrite FloatAxioms.add_spec.
    destruct HR as [-> | ->], (Prim2SF mean) as [s | [|] | | s m e]; cbn; eauto.
  - unfold location_percent.
    assert (Hloc : Prim2SF ((real_value - mean + R) * 100 / R)%float = S754_nan).
    { rewrite FloatAxioms.div_spec, FloatAxioms.mul_spec, FloatAxioms.add_spec.
      set (hundred := Prim2SF 100%float). vm_compute in hundred. subst hundred.
      destruct HR as [-> | ->],
        (Prim2SF (real_value - mean)%float) as [s | [|] | | s m e];
        reflexivity. }
    rewrite FloatAxioms.ltb_spec, Hloc.
    change (SFltb (Prim2SF 100%float) S754_nan) with false.
    now apply is_nan_Prim2SF.
Qed.

(** ** The status directory *)

Section Directory.
Context {E F : Type} `{HepRandomEngine E F}.

Lemma genmt_loop_other (size : Z) (n : nat) (i : Z) (r : E) (fs : F)
  (name : string) (e0 : E) :
  (forall k, (k < n)%nat -> name <> status_name (i + Z.of_nat k)) ->
  restoreStatus name (snd (genmt_loop size n i r fs)) e0 =
  restoreStatus name fs e0.
Proof.
  revert i r fs; induction n as [|n IH]; intros i r fs Hname; [reflexivity|].
  cbn [genmt_loop]. rewrite IH.
  - apply restore_other. intros Heq.
    apply (Hname 0%nat); [lia|]. now rewrite Z.add_0_r.
  - intros k Hk. replace (i + 1 + Z.of_nat k) with (i + Z.of_nat (S k)) by lia.
    apply Hname. lia.
Qed.

(** X7. The generator writes the status files of its replicates and nothing
    else: any other file of the directory restores as before.  What it writes
    does not depend on what the directory held: generating again gives the
    same statuses. *)
Theorem genmt_directory (replicates size : Z) (fs : F) (e0 : E) :
  (forall name,
     (forall i, 0 <= i < replicates -> name <> status_name i) ->
     restoreStatus name (snd (genmt_with replicates size fs)) e0 =
     restoreStatus name fs e0) /\
  (forall fs2 e2 i, 0 <= i < replicates ->
     restoreStatus (status_name i) (snd (genmt_with replicates size fs)) e0 =
     restoreStatus (status_name i) (snd (genmt_with replicates size fs2)) e2) /\
  (forall i, 0 <= i < replicates ->
     restoreStatus (status_name i)
       (snd (genmt_with replicates size
               (snd (genmt_with replicates size fs)))) e0 =
     restoreStatus (status_name i) (snd (genmt_with replicates size fs)) e0).
Proof.
  assert (Hsaved : forall fs1 e1 i, 0 <= i < replicates ->
            restoreStatus (status_name i)
              (snd (genmt_with replicates size fs1)) e1 =
            Some (discard ((Z.to_nat i + 1) * Z.to_nat size) (MTwistEngine SEED))).
  { intros fs1 e1 i Hi. unfold genmt_with.
    rewrite <- (Z2Nat.id i) at 1 by lia.
    rewrite <- (Z.add_0_l (Z.of_nat (Z.to_nat i))).
    apply genmt_loop_saves. lia. }
  split; [|split].
  - intros name Hname. unfold genmt_with. apply genmt_loop_other.
    intros k Hk. rewrite Z.add_0_l. apply Hname. lia.
  - intros fs2 e2 i Hi. now rewrite !Hsaved.
  - intros i Hi. now rewrite !Hsaved.
Qed.

(** X8. When [POINTS * DIMENSION] does not wrap in 32 bits, as with the
    values of [settings.h], a simulation of [points] points started from the
    status of replicate [i] ends with its engine in the very state saved as
    the status of replicate [i + 1]; the last replicate starts where the
    generator stopped.  The replicates tile the master stream: no draw is
    shared and none is skipped between them. *)
Theorem replicates_tile (replicates points : Z) (fs : F) (e0 : E)
  (elapsed : f64) (st : State E) (i : Z) :
  0 <= points -> points * Settings.DIMENSION < 2 ^ 32 ->
  0 <= i < replicates ->
  let size := wrap32 (points * Settings.DIMENSION) in
  let fs' := snd (genmt_with replicates size fs) in
  restoreStatus (status_name i) fs' e0 = Some (rng st) ->
  (i + 1 < replicates ->
   restoreStatus (status_name (i + 1)) fs' e0 =
   Some (rng (simulate points elapsed st))) /\
  (i + 1 = replicates -> fst (genmt_with replicates size fs) = rng st) /\
  Settings.POINTS * Settings.DIMENSION < 2 ^ 32.
Proof.
  intros Hp Hwrap Hi size fs' Hst.
  assert (Hsize : Z.to_nat size = (3 * Z.to_nat points)%nat).
  { subst size. unfold wrap32, Settings.DIMENSION in *.
    rewrite Z.mod_small by lia. lia. }
  assert (Hrng : rng st =
            discard ((Z.to_nat i + 1) * Z.to_nat size) (MTwistEngine SEED)).
  { subst fs'. unfold genmt_with in Hst.
    rewrite <- (Z2Nat.id i) in Hst at 1 by lia.
    rewrite <- (Z.add_0_l (Z.of_nat (Z.to_nat i))) in Hst.
    rewrite genmt_loop_saves in Hst by lia. now injection Hst as <-. }
  assert (Hend : rng (simulate points elapsed st) =
            discard ((Z.to_nat i + 2) * Z.to_nat size) (MTwistEngine SEED)).
  { rewrite simulate_rng, Hrng, <- Hsize, <- discard_add. f_equal. lia. }
  split; [|split; [|reflexivity]].
  - intros Hnext. subst fs'. unfold genmt_with.
    replace (i + 1) with (0 + Z.of_nat (Z.to_nat i + 1)) by lia.
    rewrite genmt_loop_saves by lia. rewrite Hend. do 2 f_equal. lia.
  - intros Hlast. unfold genmt_with. rewrite genmt_loop_engine, Hrng.
    do 2 f_equal. lia.
Qed.

End Directory.

(** A directory with one foreign file; two replicates of two points. *)
Lemma genmt_directory_witness :
  let fs : gmap string Z := {[ "notes.txt" := 5 ]} in
  restoreStatus "notes.txt" (snd (genmt_with 3 2 fs)) 0 = Some 5 /\
  restoreStatus (status_name 2) (snd (genmt_with 3 2 fs)) 0 =
  restoreStatus (status_name 2) (snd (genmt_with 3 2 (∅ : gmap string Z))) 9.
Proof.
  intros fs.
  destruct (genmt_directory 3 2 fs 0) as (Hother & Hsame & _).
  split.
  - rewrite Hother; [reflexivity|].
    intros i _ Heq. discriminate Heq.
  - apply Hsame. lia.
Defined.

Lemma replicates_tile_witness :
  let fs' := snd (genmt_with 3 6 (∅ : gmap string Z)) in
  let st := Build_State (SEED + 6) 0%float 0%float in
  restoreStatus (status_name 1) fs' 0 =
  Some (rng (simulate 2 0.5%float st)).
Proof.
  intros fs' st.
  destruct (replicates_tile 3 2 (∅ : gmap string Z) 0 0.5%float st 0)
    as (Hnext & _); [lia | reflexivity | lia | reflexivity |].
  apply Hnext. lia.
Defined.

(** ** Bit patterns *)

(** X11. The pattern printed for a double is a 64-bit number, and two doubles
    have the same pattern exactly when they are the same double: the hexadecimal
    column of the output identifies the estimate. *)
Theorem bits_of_f64_pattern (x y : f64) :
  0 <= bits_of_f64 x < 2 ^ 64 /\
  (bits_of_f64 x = bits_of_f64 y <-> x = y).
Proof.
  split; [|split; [apply bits_of_f64_inj | now intros ->]].
  unfold bits_of_f64. pose proof (Prim2SF_valid x) as Hv.
  destruct (Prim2SF x) as [s | s | | s m e];
    try apply valid_finite in Hv;
    unfold bits_of_spec, sign_bit;
    change (2 ^ 64) with 18446744073709551616;
    change (2 ^ 63) with 9223372036854775808 in *;
    change (2 ^ 53) with 9007199254740992 in *;
    change (2 ^ 52) with 4503599627370496 in *;
    change (2 ^ 51) with 2251799813685248 in *;
    repeat match goal with
           | |- context [if ?c <=? ?d then _ else _] => destruct (Z.leb_spec c d)
           | b : bool |- _ => destruct b
           end; lia.
Qed.

(** ** Blocks shorter than a simulation *)

Section ShortBlock.
Context {E F : Type} `{HepRandomEngine E F}.

(** X12. The block between two statuses is [SIZE] draws, an [unsigned]
    product.  If it is shorter than the three draws per point of a
    simulation, as it is as soon as [POINTS * DIMENSION] wraps, the
    simulation of replicate [i] runs past the status of replicate [i + 1]
    and consumes the first draws of its window. *)
Theorem short_block_overlap (replicates size points : Z) (fs : F) (e0 : E)
  (elapsed : f64) (st : State E) (i : Z) :
  0 <= size < 3 * points ->
  0 <= i -> i + 1 < replicates ->
  let fs' := snd (genmt_with replicates size fs) in
  restoreStatus (status_name i) fs' e0 = Some (rng st) ->
  (exists next,
     restoreStatus (status_name (i + 1)) fs' e0 = Some next /\
     rng (simulate points elapsed st) =
       discard (Z.to_nat (3 * points - size)) next /\
     0 < 3 * points - size) /\
  (forall p, 2 ^ 32 <= p * Settings.DIMENSION ->
     0 <= wrap32 (p * Settings.DIMENSION) < 3 * p).
Proof.
  intros Hsize Hi Hnext fs' Hst. split.
  - exists (discard ((Z.to_nat i + 2) * Z.to_nat size) (MTwistEngine SEED)).
    assert (Hrng : rng st =
              discard ((Z.to_nat i + 1) * Z.to_nat size) (MTwistEngine SEED)).
    { subst fs'. unfold genmt_with in Hst.
      rewrite <- (Z2Nat.id i) in Hst at 1 by lia.
      rewrite <- (Z.add_0_l (Z.of_nat (Z.to_nat i))) in Hst.
      rewrite genmt_loop_saves in Hst by lia. now injection Hst as <-. }
    split; [|split; [|lia]].
    + subst fs'. unfold genmt_with.
      replace (i + 1) with (0 + Z.of_nat (Z.to_nat i + 1)) by lia.
      rewrite genmt_loop_saves by lia. do 2 f_equal. lia.
    + rewrite simulate_rng, Hrng, <- !discard_add. f_equal. lia.
  - intros p Hp. unfold wrap32, Settings.DIMENSION in *.
    pose proof (Z.mod_pos_bound (p * 3) (2 ^ 32) ltac:(lia)) as Hb.
    pose proof (Z.mod_le (p * 3) (2 ^ 32) ltac:(lia) ltac:(lia)) as Hle.
    assert (Hlt : (p * 3) mod 2 ^ 32 <= p * 3 - 2 ^ 32).
    { rewrite <- (Z.mod_add (p * 3) (-1) (2 ^ 32)) by lia.
      apply Z.mod_le; lia. }
    lia.
Qed.

End ShortBlock.

(** Blocks of two draws, simulations of one point: three draws. *)
Lemma short_block_overlap_witness :
  let fs' := snd (genmt_with 3 2 (∅ : gmap string Z)) in
  let st := Build_State (SEED + 2) 0%float 0%float in
  exists next,
    restoreStatus (status_name 1) fs' 0 = Some next /\
    rng (simulate 1 0.5%float st) = discard (Z.to_nat (3 * 1 - 2)) next /\
    0 < 3 * 1 - 2.
Proof.
  intros fs' st.
  destruct (short_block_overlap 3 2 1 (∅ : gmap string Z) 0 0.5%float st 0)
    as [Hover _]; [lia | lia | lia | reflexivity |].
  exact Hover.
Defined.

(** * The threads and the build *)

(** ** The transition system of the threads *)

Lemma drop_head {A} (l : list A) (k : nat) (x : A) (rest : list A) :
  drop k l = x :: rest -> l !! k = Some x /\ rest = drop (S k) l.
Proof.
  intros Hd.
  assert (Hk : l !! k = Some x).
  { rewrite <- (Nat.add_0_r k), <- lookup_drop, Hd. reflexivity. }
  split; [exact Hk|]. rewrite (drop_S _ _ _ Hk) in Hd. now inversion Hd.
Qed.

Lemma program_length (K : nat) : length (program K) = (2 * K + 1)%nat.
Proof.
  unfold program. rewrite length_app, length_fmap, length_seq.
  cbn [length]. rewrite length_fmap, length_seq. lia.
Qed.

Lemma program_lookup (K k : nat) (x : instr) :
  program K !! k = Some x ->
  match x with
  | Start i => k = i /\ (i < K)%nat
  | Banner => k = K
  | Join i => k = (K + 1 + i)%nat /\ (i < K)%nat
  end.
Proof.
  unfold program. rewrite lookup_app_Some, length_fmap, length_seq.
  intros [Hs | [Hle Hr]].
  - apply list_lookup_fmap_Some in Hs as (i & -> & Hi).
    apply lookup_seq in Hi. lia.
  - destruct (k - K)%nat as [|j] eqn:Hj; cbn in Hr.
    + inversion Hr. lia.
    + apply list_lookup_fmap_Some in Hr as (i & -> & Hi).
      apply lookup_seq in Hi. lia.
Qed.

Lemma Permutation_filter_length {A} (f : A -> bool) (l l' : list A) :
  Permutation l l' -> length (List.filter f l) = length (List.filter f l').
Proof.
  induction 1 as [|x l l' _ IH|x y l|l l' l'' _ IH1 _ IH2]; cbn.
  - reflexivity.
  - destruct (f x); cbn; now rewrite IH.
  - destruct (f x), (f y); reflexivity.
  - now rewrite IH1.
Qed.

Section ThreadSystem.
Context {E F : Type} `{HepRandomEngine E F}.

Lemma sample_iteration (n : nat) (r : E) (in_ : Z) :
  sample (S n) r in_ =
  sample n (fst (iteration r in_)) (snd (iteration r in_)).
Proof.
  cbn [sample]. unfold iteration.
  destruct (flat r) as [x r1]. destruct (flat r1) as [y r2].
  destruct (flat r2) as [z r3]. reflexivity.
Qed.

Lemma simulate_as_sample (d : division) (points : Z) (elapsed : f64)
  (st : State E) (r : E) (in_ : Z) :
  sample (Z.to_nat points) (rng st) 0 = (r, in_) ->
  simulate_as d points elapsed st =
  {| rng := r; value := estimate d in_ points; duration := elapsed |}.
Proof. intros Hs. unfold simulate_as. now rewrite Hs. Qed.

Lemma simulate_as_rng (d : division) (points : Z) (elapsed : f64)
  (st : State E) :
  rng (simulate_as d points elapsed st) =
  fst (sample (Z.to_nat points) (rng st) 0).
Proof. unfold simulate_as. now destruct (sample _ _ _). Qed.

Lemma simulate_as_value (d : division) (points : Z) (elapsed : f64)
  (st : State E) :
  value (simulate_as d points elapsed st) =
  estimate d (snd (sample (Z.to_nat points) (rng st) 0)) points.
Proof. unfold simulate_as. now destruct (sample _ _ _). Qed.

Lemma simulate_as_duration (d : division) (points : Z) (elapsed : f64)
  (st : State E) :
  duration (simulate_as d points elapsed st) = elapsed.
Proof. unfold simulate_as. now destruct (sample _ _ _). Qed.

(** The call that divides is the call of the source. *)
Lemma simulate_as_Quotient (points : Z) (elapsed : f64) (st : State E) :
  simulate_as Quotient points elapsed st = simulate points elapsed st.
Proof. reflexivity. Qed.

Lemma simulate_all_as_Quotient (points : Z) (elapsed : nat -> f64) (i : nat)
  (states : list (State E)) :
  simulate_all_as Quotient points elapsed i states =
  simulate_all points elapsed i states.
Proof.
  revert i; induction states as [|st rest IH]; intros i; [reflexivity|].
  cbn [simulate_all_as simulate_all]. now rewrite IH.
Qed.

Lemma simulate_all_as_length (d : division) (points : Z)
  (elapsed : nat -> f64) (i : nat) (states : list (State E)) :
  length (simulate_all_as d points elapsed i states) = length states.
Proof.
  revert i; induction states as [|st rest IH]; intros i; cbn;
    [reflexivity | now rewrite IH].
Qed.

Lemma simulate_all_as_lookup (d : division) (points : Z)
  (elapsed : nat -> f64) (j i : nat) (states : list (State E)) :
  simulate_all_as d points elapsed j states !! i =
  simulate_as d points (elapsed (j + i)%nat) <$> states !! i.
Proof.
  revert j i; induction states as [|st rest IH]; intros j i; [reflexivity|].
  destruct i as [|i]; cbn [simulate_all_as].
  - now rewrite Nat.add_0_r.
  - cbn [lookup list_lookup]. rewrite IH. do 3 f_equal. lia.
Qed.

Lemma thread_out_idle (states : list (State E)) :
  flat_map thread_out (Idle <$> states) = [].
Proof. induction states as [|st rest IH]; [reflexivity | exact IH]. Qed.

Lemma thread_out_returned (ran : list (State E)) :
  flat_map thread_out (Returned <$> ran) = estimation_log ran.
Proof.
  induction ran as [|st rest IH]; [reflexivity|].
  cbn [fmap list_fmap flat_map thread_out app]. now rewrite IH.
Qed.

Lemma thread_out_insert (ts : list (thread E)) (i : nat) (t t' : thread E) :
  ts !! i = Some t -> thread_out t = [] ->
  Permutation (flat_map thread_out (<[i := t']> ts))
              (flat_map thread_out ts ++ thread_out t').
Proof.
  intros Hi Ht.
  rewrite insert_take_drop by (eapply lookup_lt_Some; exact Hi).
  transitivity
    (flat_map thread_out (take i ts ++ t :: drop (S i) ts) ++ thread_out t');
    [|now rewrite (take_drop_middle _ _ _ Hi)].
  rewrite !flat_map_app. cbn [flat_map]. rewrite Ht. cbn [app].
  rewrite <- app_assoc. apply Permutation_app_head, Permutation_app_comm.
Qed.

Lemma thread_left_insert (points : Z) (ts : list (thread E)) (i : nat)
  (t t' : thread E) :
  ts !! i = Some t ->
  (list_sum (thread_left points <$> <[i := t']> ts) + thread_left points t =
   list_sum (thread_left points <$> ts) + thread_left points t')%nat.
Proof.
  intros Hi.
  rewrite insert_take_drop by (eapply lookup_lt_Some; exact Hi).
  assert (Hs : list_sum (thread_left points <$> ts) =
               list_sum (thread_left points <$> take i ts ++ t :: drop (S i) ts))
    by now rewrite (take_drop_middle _ _ _ Hi).
  rewrite Hs, !fmap_app, !list_sum_app. csimpl. lia.
Qed.

Section Run.
Variables (d : division) (points : Z) (elapsed : nat -> f64).
Variable states : list (State E).

Lemma invariant_boot : invariant d points elapsed states (boot states).
Proof.
  exists 0%nat. cbn [boot pc threads out]. split; [reflexivity|].
  split; [apply length_fmap|]. split.
  - intros i st Hi. exists (Idle st). rewrite list_lookup_fmap, Hi.
    split; [reflexivity|]. cbn. split; [reflexivity | lia].
  - rewrite thread_out_idle.
    destruct (length states <? 0)%nat eqn:Hk; [apply Nat.ltb_lt in Hk; lia|].
    reflexivity.
Qed.

Lemma invariant_step (c c' : config E) :
  invariant d points elapsed states c -> step d points elapsed c c' ->
  invariant d points elapsed states c'.
Proof.
  intros (k & Hpc & Hlen & Hth & Hout) Hstep. unfold invariant.
  inversion Hstep as [i st rest ts o Hi | rest ts o | i st rest ts o Hi
                     | p i n r in_ ts o Hi | p i r in_ ts o Hi st'];
    subst c c'; cbn [pc threads out] in *.
  - (* start *)
    symmetry in Hpc. apply drop_head in Hpc as [Hk ->].
    apply program_lookup in Hk as [-> HiK].
    exists (S i). split; [reflexivity|].
    split; [now rewrite length_insert|]. split.
    + intros j sj Hj. destruct (Hth j sj Hj) as (t & Ht & Hok).
      destruct (decide (i = j)) as [<- | Hne].
      * rewrite list_lookup_insert_eq by lia. eexists; split; [reflexivity|].
        rewrite Hi in Ht. inversion Ht; subst t. destruct Hok as [-> _].
        cbn. split; [lia | reflexivity].
      * rewrite list_lookup_insert_ne by exact Hne. exists t. split; [exact Ht|].
        destruct t; cbn in *; intuition lia.
    + destruct (Nat.ltb_spec (length states) i); [lia|].
      destruct (Nat.ltb_spec (length states) (S i)); [lia|].
      rewrite Hout. cbn [app].
      rewrite (thread_out_insert ts i (Idle st)) by (assumption || reflexivity).
      cbn [thread_out]. now rewrite app_nil_r.
  - (* banner *)
    symmetry in Hpc. apply drop_head in Hpc as [Hk ->].
    apply program_lookup in Hk as ->.
    exists (S (length states)). split; [reflexivity|].
    split; [exact Hlen|]. split.
    + intros j sj Hj. destruct (Hth j sj Hj) as (t & Ht & Hok).
      exists t. split; [exact Ht|]. apply lookup_lt_Some in Hj.
      destruct t; cbn in *; intuition lia.
    + destruct (Nat.ltb_spec (length states) (length states)); [lia|].
      destruct (Nat.ltb_spec (length states) (S (length states))); [|lia].
      rewrite Hout. cbn [app]. symmetry. apply Permutation_cons_append.
  - (* join *)
    symmetry in Hpc. apply drop_head in Hpc as [Hk ->].
    apply program_lookup in Hk as [-> HiK].
    exists (S (length states + 1 + i)). split; [reflexivity|].
    split; [exact Hlen|]. split.
    + intros j sj Hj. destruct (Hth j sj Hj) as (t & Ht & Hok).
      exists t. split; [exact Ht|]. apply lookup_lt_Some in Hj.
      destruct t as [s | n r in_ | s]; cbn in *; [intuition lia | | intuition lia].
      destruct (decide (i = j)) as [<- | Hne]; [congruence|]. intuition lia.
    + destruct (Nat.ltb_spec (length states) (length states + 1 + i)); [|lia].
      destruct (Nat.ltb_spec (length states) (S (length states + 1 + i))); [|lia].
      exact Hout.
  - (* one iteration *)
    exists k. split; [exact Hpc|]. split; [now rewrite length_insert|]. split.
    + intros j sj Hj. destruct (Hth j sj Hj) as (t & Ht & Hok).
      destruct (decide (i = j)) as [<- | Hne].
      * rewrite list_lookup_insert_eq by (eapply lookup_lt_Some; exact Hi).
        eexists; split; [reflexivity|].
        rewrite Hi in Ht. inversion Ht; subst t. cbn in *.
        destruct Hok as [Hk Hs]. split; [exact Hk|].
        now rewrite <- sample_iteration.
      * rewrite list_lookup_insert_ne by exact Hne. now exists t.
    + rewrite Hout.
      rewrite (thread_out_insert ts i (Sampling (S n) r in_))
        by (assumption || reflexivity).
      cbn [thread_out]. now rewrite app_nil_r.
  - (* the thread returns *)
    exists k. split; [exact Hpc|]. split; [now rewrite length_insert|]. split.
    + intros j sj Hj. destruct (Hth j sj Hj) as (t & Ht & Hok).
      destruct (decide (i = j)) as [<- | Hne].
      * rewrite list_lookup_insert_eq by (eapply lookup_lt_Some; exact Hi).
        eexists; split; [reflexivity|].
        rewrite Hi in Ht. inversion Ht; subst t. cbn in *.
        destruct Hok as [Hk Hs]. split; [lia|].
        symmetry. apply simulate_as_sample. now rewrite <- Hs.
      * rewrite list_lookup_insert_ne by exact Hne. now exists t.
    + rewrite Hout.
      rewrite (thread_out_insert ts i (Sampling 0 r in_))
        by (assumption || reflexivity).
      cbn [thread_out]. now rewrite app_assoc.
Qed.

Lemma invariant_reachable (c : config E) :
  rtc (step d points elapsed) (boot states) c ->
  invariant d points elapsed states c.
Proof.
  revert c. apply rtc_ind_r.
  - apply invariant_boot.
  - intros c1 c2 _ Hstep IH. now apply (invariant_step c1).
Qed.

(** Once the last thread is joined, every thread has left the state that
    [simulate_as] computes from its own initial state, and the output holds
    the banner and one line per thread, in some order. *)
Lemma invariant_final (c : config E) :
  invariant d points elapsed states c -> pc c = [] ->
  threads c = Returned <$> simulate_all_as d points elapsed 0 states /\
  Permutation (out c)
    (RunningThread :: estimation_log (simulate_all_as d points elapsed 0 states)).
Proof.
  intros (k & Hpc & Hlen & Hth & Hout) Hnil.
  assert (Hk : (2 * length states + 1 <= k)%nat).
  { rewrite Hnil in Hpc. apply (f_equal length) in Hpc.
    rewrite length_drop, program_length in Hpc. cbn [length] in Hpc. lia. }
  assert (Hts : threads c =
                Returned <$> simulate_all_as d points elapsed 0 states).
  { apply list_eq. intros i.
    rewrite list_lookup_fmap, simulate_all_as_lookup, Nat.add_0_l.
    destruct (states !! i) as [st|] eqn:Hi.
    - destruct (Hth i st Hi) as (t & Ht & Hok). rewrite Ht.
      apply lookup_lt_Some in Hi.
      destruct t as [s | n r in_ | s]; cbn in *; [lia | lia |].
      destruct Hok as [_ ->]. reflexivity.
    - apply lookup_ge_None in Hi. cbn. apply lookup_ge_None. lia. }
  split; [exact Hts|].
  rewrite Hout, Hts, thread_out_returned.
  destruct (Nat.ltb_spec (length states) k); [reflexivity | lia].
Qed.

(** No run is stuck before the last join. *)
Lemma invariant_progress (c : config E) :
  invariant d points elapsed states c -> pc c <> [] ->
  exists c', step d points elapsed c c'.
Proof.
  intros (k & Hpc & Hlen & Hth & Hout) Hne.
  destruct c as [p ts o]. cbn [pc threads out] in *.
  destruct p as [|x rest]; [congruence|].
  symmetry in Hpc. apply drop_head in Hpc as [Hk _].
  apply program_lookup in Hk.
  destruct x as [i | | i].
  - destruct Hk as [-> HiK].
    destruct (lookup_lt_is_Some_2 states i HiK) as [st Hst].
    destruct (Hth i st Hst) as (t & Ht & Hok).
    destruct t as [s | n r in_ | s]; cbn in Hok; [|lia|lia].
    eexists. apply (step_start _ _ _ i s). exact Ht.
  - eexists. apply step_banner.
  - destruct Hk as [-> HiK].
    destruct (lookup_lt_is_Some_2 states i HiK) as [st Hst].
    destruct (Hth i st Hst) as (t & Ht & Hok).
    destruct t as [s | [|n] r in_ | s]; cbn in Hok; [lia | | |].
    + eexists. apply (step_return _ _ _ _ i r in_). exact Ht.
    + eexists. apply (step_iteration _ _ _ _ i n r in_). exact Ht.
    + eexists. apply (step_join _ _ _ i s). exact Ht.
Qed.

(** Every step uses up one of the steps that are left. *)
Lemma step_steps_left (c c' : config E) :
  step d points elapsed c c' ->
  (steps_left points c' < steps_left points c)%nat.
Proof.
  intros Hstep.
  inversion Hstep as [i st rest ts o Hi | rest ts o | i st rest ts o Hi
                     | p i n r in_ ts o Hi | p i r in_ ts o Hi st'];
    subst c c'; unfold steps_left; cbn [pc threads out length].
  - pose proof (thread_left_insert points ts i _ (started points st) Hi) as Hs.
    cbn [thread_left started] in Hs. lia.
  - lia.
  - lia.
  - pose proof (thread_left_insert points ts i _
                  (Sampling n (fst (iteration r in_)) (snd (iteration r in_)))
                  Hi) as Hs.
    cbn [thread_left] in Hs. lia.
  - pose proof (thread_left_insert points ts i _ (Returned st') Hi) as Hs.
    cbn [thread_left] in Hs. lia.
Qed.

(** Whatever the schedule, the threads cannot run forever. *)
Lemma step_terminates (c : config E) : sn (step d points elapsed) c.
Proof.
  remember (steps_left points c) as m eqn:Hm. revert c Hm.
  induction m as [m IH] using lt_wf_ind. intros c ->.
  constructor. intros c' Hstep. unfold flip in Hstep.
  apply (IH (steps_left points c')); [now apply step_steps_left | reflexivity].
Qed.

(** Every run of the threads can be completed, and is complete as soon as
    no step is left. *)
Lemma run_completes (c : config E) :
  rtc (step d points elapsed) (boot states) c ->
  exists c', rtc (step d points elapsed) c c' /\ pc c' = [].
Proof.
  intros Hrun. induction (step_terminates c) as [c _ IH].
  destruct (pc c) as [|x rest] eqn:Hpc.
  - exists c. split; [reflexivity | exact Hpc].
  - destruct (invariant_progress c) as [c1 Hstep];
      [now apply invariant_reachable | congruence |].
    destruct (IH c1 Hstep) as (c' & Hrun' & Hnil);
      [now apply (rtc_r _ c) |].
    exists c'. split; [now apply (rtc_l _ _ c1) | exact Hnil].
Qed.

End Run.

End ThreadSystem.

(** ** Schedules *)

Section Schedules.
Context {E F : Type} `{HepRandomEngine E F}.
Variables (d : division) (points : Z) (elapsed : nat -> f64).

(** The main thread can start every thread before any of them moves. *)
Lemma run_starts (states : list (State E)) (rest : list instr)
  (o : list event) (n a : nat) :
  (a + n = length states)%nat ->
  rtc (step d points elapsed)
    {| pc := (Start <$> seq a n) ++ rest;
       threads := (started points <$> take a states) ++ (Idle <$> drop a states);
       out := o |}
    {| pc := rest; threads := started points <$> states; out := o |}.
Proof.
  revert a; induction n as [|n IH]; intros a Ha.
  - cbn [seq fmap list_fmap app]. rewrite take_ge, drop_ge by lia.
    cbn [fmap list_fmap]. rewrite app_nil_r. reflexivity.
  - destruct (lookup_lt_is_Some_2 states a) as [st Hst]; [lia|].
    assert (Hlen : length (started points <$> take a states) = a)
      by (rewrite length_fmap, length_take; lia).
    eapply rtc_l.
    + cbn [seq fmap list_fmap app]. apply (step_start _ _ _ a st).
      rewrite lookup_app_r by lia. rewrite Hlen, Nat.sub_diag.
      now rewrite (drop_S _ _ _ Hst).
    + assert (Hts : <[a := started points st]>
                      ((started points <$> take a states) ++ (Idle <$> drop a states)) =
                    (started points <$> take (S a) states) ++
                    (Idle <$> drop (S a) states)).
      { rewrite insert_app_r_alt by lia. rewrite Hlen, Nat.sub_diag.
        rewrite (drop_S _ _ _ Hst), (take_S_r _ _ _ Hst), fmap_app.
        rewrite <- app_assoc. reflexivity. }
      rewrite Hts. apply IH. lia.
Qed.

(** A started thread can run to its end without any other thread moving. *)
Lemma run_thread (p : list instr) (ts : list (thread E)) (o : list event)
  (i n : nat) (r : E) (in_ : Z) :
  ts !! i = Some (Sampling n r in_) ->
  let st' := {| rng := fst (sample n r in_);
                value := estimate d (snd (sample n r in_)) points;
                duration := elapsed i |} in
  rtc (step d points elapsed)
    {| pc := p; threads := ts; out := o |}
    {| pc := p; threads := <[i := Returned st']> ts; out := o ++ [line st'] |}.
Proof.
  revert ts r in_; induction n as [|n IH]; intros ts r in_ Hi st'.
  - apply rtc_once. apply (step_return _ _ _ p i r in_ ts o Hi).
  - eapply rtc_l; [apply (step_iteration _ _ _ p i n r in_ ts o Hi)|].
    specialize (IH (<[i := Sampling n (fst (iteration r in_))
                                     (snd (iteration r in_))]> ts)
                  (fst (iteration r in_)) (snd (iteration r in_))).
    rewrite list_lookup_insert_eq in IH by (eapply lookup_lt_Some; exact Hi).
    specialize (IH eq_refl). cbn zeta in IH.
    rewrite list_insert_insert_eq in IH.
    subst st'. rewrite sample_iteration. exact IH.
Qed.

(** The threads of a list can run to their end one after the other. *)
Lemma run_threads (states : list (State E)) (p : list instr) (l : list nat) :
  forall (ts : list (thread E)) (o : list event),
  NoDup l ->
  (forall i, i ∈ l ->
     exists st, states !! i = Some st /\ ts !! i = Some (started points st)) ->
  let ran := simulate_all_as d points elapsed 0 states in
  exists ts',
    rtc (step d points elapsed)
      {| pc := p; threads := ts; out := o |}
      {| pc := p; threads := ts'; out := o ++ lines_of ran l |} /\
    (forall j, j ∈ l -> ts' !! j = Returned <$> ran !! j) /\
    (forall j, j ∉ l -> ts' !! j = ts !! j).
Proof.
  induction l as [|i l IH]; intros ts o Hnd Hl ran.
  - exists ts. rewrite app_nil_r. split; [reflexivity|].
    split; [intros j Hj; now apply elem_of_nil in Hj | reflexivity].
  - apply NoDup_cons in Hnd as [Hi Hnd].
    destruct (Hl i) as (st & Hst & Hts); [apply elem_of_cons; now left|].
    assert (Hran : ran !! i = Some (simulate_as d points (elapsed i) st)).
    { subst ran. now rewrite simulate_all_as_lookup, Hst. }
    pose proof (run_thread p ts o i _ _ _ Hts) as Hrun. cbn zeta in Hrun.
    rewrite <- (simulate_as_sample d points (elapsed i) st) in Hrun
      by apply surjective_pairing.
    destruct (IH (<[i := Returned (simulate_as d points (elapsed i) st)]> ts)
                (o ++ [line (simulate_as d points (elapsed i) st)]) Hnd)
      as (ts' & Hrun' & Hin & Hout).
    { intros j Hj. destruct (Hl j) as (sj & Hsj & Htj);
        [apply elem_of_cons; now right|].
      exists sj. split; [exact Hsj|].
      rewrite list_lookup_insert_ne by (intros ->; contradiction). exact Htj. }
    exists ts'. split; [|split].
    + etrans; [exact Hrun|].
      replace (o ++ lines_of ran (i :: l))
        with ((o ++ [line (simulate_as d points (elapsed i) st)]) ++
              lines_of ran l); [exact Hrun'|].
      rewrite <- app_assoc. unfold lines_of at 2. cbn [omap list_omap].
      rewrite Hran. reflexivity.
    + intros j Hj. apply elem_of_cons in Hj as [-> | Hj]; [|now apply Hin].
      rewrite (Hout i Hi), Hran.
      apply list_lookup_insert_eq. eapply lookup_lt_Some; exact Hts.
    + intros j Hj. apply not_elem_of_cons in Hj as [Hne Hj].
      rewrite (Hout j Hj). now apply list_lookup_insert_ne.
Qed.

(** Once every thread has returned, the joins go through. *)
Lemma run_joins (ts : list (thread E)) (o : list event) (n a : nat) :
  (forall i, (a <= i < a + n)%nat -> exists st, ts !! i = Some (Returned st)) ->
  rtc (step d points elapsed)
    {| pc := Join <$> seq a n; threads := ts; out := o |}
    {| pc := []; threads := ts; out := o |}.
Proof.
  revert a; induction n as [|n IH]; intros a Hall; [reflexivity|].
  destruct (Hall a) as [st Hst]; [lia|].
  eapply rtc_l; [cbn [seq fmap list_fmap]; apply (step_join _ _ _ a st); exact Hst|].
  apply IH. intros i Hi. apply Hall. lia.
Qed.

(** Every order of the lines is the output of a run: the threads of
    [before] print before the banner, those of [after] behind it. *)
Lemma scheduled (states : list (State E)) (before after : list nat) :
  Permutation (before ++ after) (seq 0 (length states)) ->
  let ran := simulate_all_as d points elapsed 0 states in
  exists c,
    rtc (step d points elapsed) (boot states) c /\
    pc c = [] /\
    threads c = Returned <$> ran /\
    out c = lines_of ran before ++ RunningThread :: lines_of ran after.
Proof.
  intros Hperm ran.
  assert (Hnd : NoDup (before ++ after))
    by (rewrite Hperm; apply NoDup_seq).
  apply NoDup_app in Hnd as (Hndb & Hdisj & Hnda).
  assert (Hmem : forall j, j ∈ before ++ after <-> (j < length states)%nat).
  { intros j. rewrite Hperm, elem_of_seq. lia. }
  assert (Hstart : forall j, (j < length states)%nat ->
            exists st, states !! j = Some st /\
              (started points <$> states) !! j = Some (started points st)).
  { intros j Hj. destruct (lookup_lt_is_Some_2 states j Hj) as [st Hst].
    exists st. split; [exact Hst|]. now rewrite list_lookup_fmap, Hst. }
  destruct (run_threads states (Banner :: (Join <$> seq 0 (length states)))
              before (started points <$> states) [] Hndb)
    as (ts1 & Hrun1 & Hin1 & Hout1).
  { intros j Hj. apply Hstart, Hmem, elem_of_app. now left. }
  destruct (run_threads states (Join <$> seq 0 (length states))
              after ts1 (lines_of ran before ++ [RunningThread]) Hnda)
    as (ts2 & Hrun2 & Hin2 & Hout2).
  { intros j Hj. destruct (Hstart j) as (st & Hst & Hts);
      [apply Hmem, elem_of_app; now right|].
    exists st. split; [exact Hst|]. rewrite Hout1; [exact Hts|].
    intros Hb. exact (Hdisj j Hb Hj). }
  assert (Hts2 : ts2 = Returned <$> ran).
  { apply list_eq. intros j. rewrite list_lookup_fmap.
    destruct (decide (j ∈ after)) as [Ha | Ha]; [now apply Hin2|].
    rewrite (Hout2 j Ha).
    destruct (decide (j ∈ before)) as [Hb | Hb]; [now apply Hin1|].
    rewrite (Hout1 j Hb).
    assert (Hge : (length states <= j)%nat).
    { destruct (Nat.le_gt_cases (length states) j) as [Hle | Hlt]; [exact Hle|].
      apply Hmem, elem_of_app in Hlt. tauto. }
    rewrite !lookup_ge_None_2; [reflexivity | |].
    - subst ran. now rewrite simulate_all_as_length.
    - now rewrite length_fmap. }
  exists {| pc := []; threads := ts2;
            out := (lines_of ran before ++ [RunningThread]) ++ lines_of ran after |}.
  split; [|split; [reflexivity | split; [exact Hts2|]]].
  - etrans.
    { pose proof (run_starts states (Banner :: (Join <$> seq 0 (length states)))
                    [] (length states) 0 eq_refl) as Hs.
      rewrite take_0, drop_0 in Hs. exact Hs. }
    etrans; [exact Hrun1|]. cbn [app].
    eapply rtc_l; [apply step_banner|].
    etrans; [exact Hrun2|].
    apply run_joins. intros i Hi. rewrite Hts2, list_lookup_fmap.
    destruct (lookup_lt_is_Some_2 ran i) as [st Hst];
      [subst ran; rewrite simulate_all_as_length; lia|].
    rewrite Hst. now exists st.
  - cbn [out]. now rewrite <- app_assoc.
Qed.

(** The lines in index order are the log of the estimates. *)
Lemma lines_of_seq (pre ran : list (State E)) :
  lines_of (pre ++ ran) (seq (length pre) (length ran)) = estimation_log ran.
Proof.
  revert pre; induction ran as [|st ran IH]; intros pre; [reflexivity|].
  cbn [length seq]. unfold lines_of. cbn [omap list_omap].
  rewrite list_lookup_middle by reflexivity. cbn [fmap option_fmap option_map].
  cbn [estimation_log map]. f_equal.
  specialize (IH (pre ++ [st])). rewrite <- app_assoc, length_app in IH.
  cbn [length app] in IH. rewrite Nat.add_1_r in IH. exact IH.
Qed.

End Schedules.

(** ** The runs of [main] *)

Lemma verdict_loading (i : Z) (n : nat) :
  List.filter is_verdict (loading_log i n) = [].
Proof. revert i; induction n as [|n IH]; intros i; cbn; [reflexivity | apply IH]. Qed.

Lemma issue_is_verdict (l : list event) :
  List.filter is_issue l = List.filter is_issue (List.filter is_verdict l).
Proof.
  induction l as [|e l IH]; [reflexivity|].
  destruct e; cbn; now rewrite <- IH.
Qed.

Lemma check_returns (v r : f64) :
  check v r =
  ([if bits_of_f64 v =? bits_of_f64 r then ReproConfirmed
    else ReproIssue v (bits_of_f64 v) r (bits_of_f64 r)], inr tt).
Proof. unfold check, same_bits. now destruct (_ =? _). Qed.

Section BuiltRun.
Context {E F : Type} `{HepRandomEngine E F}.

Lemma returned_inj (a b : list (State E)) :
  Returned <$> a = Returned <$> b -> a = b.
Proof.
  revert b; induction a as [|x a IH]; intros [|y b] Hab;
    try (inversion Hab; fail); [reflexivity|].
  inversion Hab. f_equal. now apply IH.
Qed.

Lemma sequential_loop_as_Quotient (points : Z) (elapsed : nat -> f64) (i : nat)
  (states : list (State E)) (results : list f64) (total : f64) :
  sequential_loop_as Quotient points elapsed i states results total =
  sequential_loop points elapsed i states results total.
Proof.
  revert i results total; induction states as [|st rest IH];
    intros i [|r rs] total; try reflexivity.
  cbn [sequential_loop_as sequential_loop].
  unfold computeSphereVolume_as, computeSphereVolume.
  rewrite simulate_as_Quotient. unfold line.
  cbn [bind emit ret app]. rewrite check_returns. cbn [bind].
  now rewrite IH.
Qed.

Lemma sequential_loop_as_returns (d : division) (points : Z)
  (elapsed : nat -> f64) (i : nat) (states : list (State E))
  (results : list f64) (total : f64) :
  length results = length states ->
  sequential_loop_as d points elapsed i states results total =
  (verdict_log (simulate_all_as d points elapsed i states) results,
   inr (total_duration (simulate_all_as d points elapsed i states) total)).
Proof.
  revert i results total; induction states as [|st rest IH];
    intros i results total Hlen.
  - destruct results; [reflexivity | discriminate].
  - destruct results as [|r rs]; [discriminate|]. injection Hlen as Hlen.
    cbn [sequential_loop_as simulate_all_as]. unfold computeSphereVolume_as.
    cbn [bind emit ret app]. rewrite check_returns, (IH _ _ _ Hlen).
    reflexivity.
Qed.

(** The rest of [main] when every status loads. *)
Lemma main_tail_returns (d : division) (replicates points : Z) (fs : F)
  (seq_time : nat -> f64) (ran : list (State E)) :
  (forall k e, (k < length ran)%nat ->
     restoreStatus (status_name (Z.of_nat k)) fs e <> None) ->
  let results := map value ran in
  let reran := simulate_all_as d points seq_time 0 (load_all fs 0 ran) in
  main_tail d replicates points fs seq_time ran =
  (Results (statistics results replicates) :: RunningSequential ::
     loading_log 0 (length ran) ++ verdict_log reran results ++
     [SequentialTime (total_duration reran 0%float)],
   inr 0).
Proof.
  intros Hall results reran. unfold main_tail, statistics. fold results.
  destruct (moments results replicates) as [mean variance].
  unfold printResult. cbn [bind emit ret app].
  rewrite initRng_loop_returns
    by (intros k e Hk; rewrite Z.add_0_l; now apply Hall).
  cbn [bind].
  rewrite sequential_loop_as_returns
    by (subst results; now rewrite length_map, load_all_length).
  fold reran. cbn [bind emit ret app]. reflexivity.
Qed.

Section Trace.
Variables (dT dS : division) (replicates points : Z) (fs : F).
Variables (initial : nat -> State E) (par_time seq_time : nat -> f64).

Hypothesis loads : forall k e, (k < Z.to_nat replicates)%nat ->
  restoreStatus (status_name (Z.of_nat k)) fs e <> None.

Let K := Z.to_nat replicates.
Let ran := simulate_all_as dT points par_time 0
             (load_all fs 0 (map initial (seq 0 K))).
Let results := map value ran.
Let reran := simulate_all_as dS points seq_time 0 (load_all fs 0 ran).
Let trace (threads_out : list event) : IO Z :=
  (loading_log 0 K ++ threads_out ++
     Results (statistics results replicates) :: RunningSequential ::
     loading_log 0 K ++ verdict_log reran results ++
     [SequentialTime (total_duration reran 0%float)],
   inr 0).

Lemma ran_length : length ran = K.
Proof.
  subst ran. now rewrite simulate_all_as_length, load_all_length,
    length_map, length_seq.
Qed.

Lemma loading_returns :
  initRng_loop fs 0 (map initial (seq 0 K)) =
  (loading_log 0 K, inr (load_all fs 0 (map initial (seq 0 K)))).
Proof.
  rewrite initRng_loop_returns, length_map, length_seq; [reflexivity|].
  intros k e Hk. rewrite length_map, length_seq in Hk.
  rewrite Z.add_0_l. now apply loads.
Qed.

Lemma trace_bind (threads_out : list event) :
  bind (loading_log 0 K ++ threads_out, inr tt)
    (fun _ => main_tail dS replicates points fs seq_time ran) =
  trace threads_out.
Proof.
  rewrite main_tail_returns
    by (intros k e Hk; rewrite ran_length in Hk; now apply loads).
  rewrite ran_length. subst trace. cbn [bind]. now rewrite <- app_assoc.
Qed.

(** Every run prints the banner and the lines of the threads in some order,
    and the rest in the order of the source. *)
Lemma main_run_inv (m : IO Z) :
  main_run dT dS replicates points fs initial par_time seq_time m ->
  exists threads_out,
    Permutation threads_out (RunningThread :: estimation_log ran) /\
    m = trace threads_out.
Proof.
  intros Hrun.
  inversion Hrun as [l e Hload | l states c ran' Hload Hsteps Hpc Hts];
    subst m; fold K in Hload; rewrite loading_returns in Hload.
  - inversion Hload.
  - inversion Hload; subst l states.
    destruct (invariant_final dT points par_time _ c
                (invariant_reachable _ _ _ _ c Hsteps) Hpc) as [Hfin Hout].
    rewrite Hfin in Hts. apply returned_inj in Hts. fold ran in Hts, Hout.
    subst ran'. exists (out c). split; [exact Hout | apply trace_bind].
Qed.

(** Every order of the lines and the banner is the output of a run. *)
Lemma main_run_scheduled (before after : list nat) :
  Permutation (before ++ after) (seq 0 K) ->
  main_run dT dS replicates points fs initial par_time seq_time
    (trace (lines_of ran before ++ RunningThread :: lines_of ran after)).
Proof.
  intros Hperm.
  destruct (scheduled dT points par_time
              (load_all fs 0 (map initial (seq 0 K))) before after)
    as (c & Hsteps & Hpc & Hts & Hout).
  { now rewrite load_all_length, length_map, length_seq. }
  fold ran in Hts, Hout. rewrite <- Hout, <- trace_bind.
  now apply (run_complete dT dS replicates points fs initial par_time seq_time
               _ _ c ran loading_returns).
Qed.

End Trace.

End BuiltRun.

Section SourceRun.
Context {E F : Type} `{HepRandomEngine E F}.

(** [main_with], which runs each thread when it is joined, is the run in
    which no call multiplies by a reciprocal and every thread prints behind
    the banner, in index order. *)
Lemma main_with_run (replicates points : Z) (fs : F)
  (initial : nat -> State E) (par_time seq_time : nat -> f64) :
  main_run Quotient Quotient replicates points fs initial par_time seq_time
    (main_with replicates points fs initial par_time seq_time).
Proof.
  unfold main_with.
  destruct (initRng_loop fs 0 (map initial (seq 0 (Z.to_nat replicates))))
    as [l [e | states]] eqn:Hload.
  - cbn [bind]. now apply run_load_error.
  - destruct (scheduled Quotient points par_time states [] (seq 0 (length states)))
      as (c & Hsteps & Hpc & Hts & Hout); [reflexivity|].
    pose proof (lines_of_seq [] (simulate_all_as Quotient points par_time 0 states))
      as Hlines.
    cbn [app length] in Hlines. rewrite simulate_all_as_length in Hlines.
    rewrite Hlines in Hout. change (lines_of _ [] ++ ?x) with x in Hout.
    pose proof (run_complete Quotient Quotient replicates points fs initial
                  par_time seq_time l states c _ Hload Hsteps Hpc Hts) as Hrun.
    rewrite Hout, simulate_all_as_Quotient in Hrun.
    replace (bind (l, inr states) _) with
      (bind (l ++ RunningThread ::
               estimation_log (simulate_all points par_time 0 states), inr tt)
         (fun _ => main_tail Quotient replicates points fs seq_time
                     (simulate_all points par_time 0 states)));
      [exact Hrun|].
    cbn [bind emit ret app]. rewrite join_loop_returns. cbn [bind].
    unfold main_tail.
    destruct (moments _ replicates) as [mean variance].
    unfold printResult. cbn [bind emit ret app].
    destruct (initRng_loop fs 0 (simulate_all points par_time 0 states))
      as [l2 [e2 | states2]]; cbn [bind].
    + now rewrite <- !app_assoc.
    + rewrite sequential_loop_as_Quotient.
      destruct (sequential_loop _ _ _ _ _ _) as [l3 [e3 | total]];
        cbn [bind emit ret app]; now rewrite <- !app_assoc.
Qed.

End SourceRun.

(** ** Reproducibility *)

Section Reproducibility.
Context {E F : Type} `{HepRandomEngine E F}.

(** C9, as the code and its build have it.  Take any run of the threads, up
    to the last join, under any schedule.  Two threads that start from the
    same engine state leave the same engine state and estimates with the
    same bit pattern.  A further call from that engine state, at a call
    site that evaluates line 45 as [d'], draws the same values and counts
    the same number of points: its engine ends in the same state and its
    estimate is computed from the same count.  Its estimate has the same
    bit pattern when that call site evaluates line 45 as the threads do. *)
Theorem simulation_reproducible (d : division) (points : Z)
  (elapsed : nat -> f64) (states : list (State E)) (c : config E)
  (i j : nat) (si sj : State E) :
  rtc (step d points elapsed) (boot states) c ->
  pc c = [] ->
  states !! i = Some si -> states !! j = Some sj -> rng si = rng sj ->
  exists si' sj',
    threads c !! i = Some (Returned si') /\
    threads c !! j = Some (Returned sj') /\
    rng si' = rng sj' /\
    bits_of_f64 (value si') = bits_of_f64 (value sj') /\
    forall (d' : division) (elapsed' : f64) (st : State E),
      rng st = rng si ->
      exists st' in_,
        outcome (computeSphereVolume_as d' points elapsed' st) = inr st' /\
        rng st' = rng si' /\
        value st' = estimate d' in_ points /\
        value si' = estimate d in_ points /\
        (d' = d -> bits_of_f64 (value st') = bits_of_f64 (value si')).
Proof.
  intros Hrun Hpc Hi Hj Hrng.
  destruct (invariant_final d points elapsed states c
              (invariant_reachable _ _ _ _ c Hrun) Hpc) as [Hts _].
  exists (simulate_as d points (elapsed i) si),
         (simulate_as d points (elapsed j) sj).
  rewrite Hts, !list_lookup_fmap, !simulate_all_as_lookup, Hi, Hj.
  split; [reflexivity|]. split; [reflexivity|].
  split; [now rewrite !simulate_as_rng, Hrng|].
  split; [now rewrite !simulate_as_value, Hrng|].
  intros d' elapsed' st Hst.
  exists (simulate_as d' points elapsed' st),
         (snd (sample (Z.to_nat points) (rng si) 0)).
  split; [reflexivity|].
  split; [now rewrite !simulate_as_rng, Hst|].
  split; [now rewrite simulate_as_value, Hst|].
  split; [apply simulate_as_value|].
  intros ->. now rewrite !simulate_as_value, Hst.
Qed.

End Reproducibility.

(** ** The two programs in sequence *)

Section Pipeline.
Context {E F : Type} `{HepRandomEngine E F}.

Lemma verdict_estimation (runs : list (State E)) :
  List.filter is_verdict (estimation_log runs) = [].
Proof. induction runs as [|st runs IH]; cbn; [reflexivity | apply IH]. Qed.

(** The engines the loading loop installs. *)
Lemma load_all_engines (fs : F) (g : nat -> E) (states : list (State E))
  (a : nat) :
  (forall k e, (a <= k < a + length states)%nat ->
     restoreStatus (status_name (Z.of_nat k)) fs e = Some (g k)) ->
  map rng (load_all fs (Z.of_nat a) states) = map g (seq a (length states)).
Proof.
  revert a; induction states as [|st rest IH]; intros a Hall; [reflexivity|].
  cbn [load_all map rng length seq]. f_equal.
  - rewrite Hall by (cbn [length]; lia). reflexivity.
  - replace (Z.of_nat a + 1) with (Z.of_nat (S a)) by lia.
    apply IH. intros k e Hk. apply Hall. cbn [length]. lia.
Qed.

(** The verdicts of the sequential pass depend on the engines the two
    passes start from and on how the two call sites evaluate line 45,
    and on nothing else. *)
Lemma verdicts_of_engines (dT dS : division) (points : Z)
  (el1 el2 : nat -> f64) (engines : list E) :
  forall (j1 j2 : nat) (L1 L2 : list (State E)),
  map rng L1 = engines -> map rng L2 = engines ->
  List.filter is_verdict
    (verdict_log (simulate_all_as dS points el2 j2 L2)
       (map value (simulate_all_as dT points el1 j1 L1))) =
  map (fun r => verdict dT dS points (snd (sample (Z.to_nat points) r 0)))
    engines.
Proof.
  induction engines as [|r engines IH]; intros j1 j2 [|s1 L1] [|s2 L2] H1 H2;
    try discriminate; [reflexivity|].
  injection H1 as Hr1 H1. injection H2 as Hr2 H2.
  unfold verdict_log.
  cbn [simulate_all_as map combine concat replicate_log app List.filter
       is_verdict].
  rewrite !simulate_as_value, Hr1, Hr2.
  fold (verdict dT dS points (snd (sample (Z.to_nat points) r 0))).
  assert (Hv : is_verdict
                 (verdict dT dS points (snd (sample (Z.to_nat points) r 0))) = true)
    by (unfold verdict; cbn zeta; now destruct (_ =? _)).
  rewrite Hv. f_equal. now apply IH.
Qed.

(** X9. The two programs in sequence, under any schedule of the threads and
    whatever the directory held before.  With the directory the generator has
    written, the estimation has a run, and every run loads every status,
    runs both passes and returns 0; it prints two estimates and one verdict
    per replicate.  The two simulations of a replicate count the same number
    of points, so the verdict of replicate [i] is "confirmed" exactly when
    the thread and the call of line 157 evaluate line 45 to the same bits on
    that count; if the two call sites evaluate line 45 alike, no issue is
    printed. *)
Theorem genmt_main_pipeline (dT dS : division) (replicates size points : Z)
  (fs : F) (initial : nat -> State E) (par_time seq_time : nat -> f64) :
  let fs' := snd (genmt_with replicates size fs) in
  let K := Z.to_nat replicates in
  let count := fun i : nat =>
    snd (sample (Z.to_nat points)
           (discard ((i + 1) * Z.to_nat size) (MTwistEngine SEED)) 0) in
  (exists m,
     main_run dT dS replicates points fs' initial par_time seq_time m) /\
  forall m,
    main_run dT dS replicates points fs' initial par_time seq_time m ->
    outcome m = inr 0 /\
    length (List.filter is_estimation (printed m)) = (2 * K)%nat /\
    List.filter is_verdict (printed m) =
      map (fun i => verdict dT dS points (count i)) (seq 0 K) /\
    (dT = dS -> List.filter is_issue (printed m) = []).
Proof.
  intros fs' K count.
  assert (Hall : forall k e, (k < K)%nat ->
            restoreStatus (status_name (Z.of_nat k)) fs' e =
            Some (discard ((k + 1) * Z.to_nat size) (MTwistEngine SEED))).
  { intros k e Hk. subst fs'. unfold genmt_with.
    rewrite <- (Z.add_0_l (Z.of_nat k)). now apply genmt_loop_saves. }
  assert (Hsome : forall k e, (k < Z.to_nat replicates)%nat ->
            restoreStatus (status_name (Z.of_nat k)) fs' e <> None).
  { intros k e Hk. now rewrite Hall. }
  split.
  { eexists. apply (main_run_scheduled dT dS replicates points fs' initial
                      par_time seq_time Hsome [] (seq 0 K)). reflexivity. }
  intros m Hrun.
  destruct (main_run_inv dT dS replicates points fs' initial par_time seq_time
              Hsome m Hrun) as (threads_out & Hperm & ->).
  fold K. set (loaded := load_all fs' 0 (map initial (seq 0 K))).
  set (ran := simulate_all_as dT points par_time 0 loaded).
  fold ran in Hperm.
  set (reran := simulate_all_as dS points seq_time 0 (load_all fs' 0 ran)).
  assert (Hran : length ran = K).
  { subst ran loaded. now rewrite simulate_all_as_length, load_all_length,
      length_map, length_seq. }
  assert (Hreran : length reran = K).
  { subst reran. now rewrite simulate_all_as_length, load_all_length. }
  assert (Hverdicts :
            List.filter is_verdict (verdict_log reran (map value ran)) =
            map (fun i => verdict dT dS points (count i)) (seq 0 K)).
  { unfold reran, ran.
    rewrite (verdicts_of_engines dT dS points par_time seq_time
               (map (fun k => discard ((k + 1) * Z.to_nat size) (MTwistEngine SEED))
                  (seq 0 K))).
    - now rewrite map_map.
    - unfold loaded. change 0 with (Z.of_nat 0).
      rewrite load_all_engines with
        (g := fun k => discard ((k + 1) * Z.to_nat size) (MTwistEngine SEED));
        [now rewrite length_map, length_seq|].
      intros k e Hk. rewrite length_map, length_seq in Hk. apply Hall. lia.
    - fold ran. change 0 with (Z.of_nat 0).
      rewrite load_all_engines with
        (g := fun k => discard ((k + 1) * Z.to_nat size) (MTwistEngine SEED));
        [now rewrite Hran|].
      intros k e Hk. rewrite Hran in Hk. apply Hall. lia. }
  assert (Hfilter :
            List.filter is_verdict
              (loading_log 0 K ++ threads_out ++
               Results (statistics (map value ran) replicates) ::
               RunningSequential :: loading_log 0 K ++
               verdict_log reran (map value ran) ++
               [SequentialTime (total_duration reran 0%float)]) =
            map (fun i => verdict dT dS points (count i)) (seq 0 K)).
  { rewrite List.filter_app, verdict_loading. cbn [app].
    rewrite List.filter_app.
    assert (Hnone : List.filter is_verdict threads_out = []).
    { apply length_zero_iff_nil.
      rewrite (Permutation_filter_length is_verdict _ _ Hperm).
      cbn [List.filter is_verdict]. now rewrite verdict_estimation. }
    rewrite Hnone. cbn [app List.filter is_verdict].
    rewrite List.filter_app, verdict_loading. cbn [app].
    rewrite List.filter_app, Hverdicts. cbn [List.filter is_verdict].
    apply app_nil_r. }
  split; [reflexivity|]. cbn [printed fst]. split; [|split].
  - rewrite List.filter_app, estimations_loading. cbn [app].
    rewrite List.filter_app, length_app.
    rewrite (Permutation_filter_length is_estimation _ _ Hperm).
    cbn [List.filter is_estimation]. rewrite estimations_estimation.
    rewrite List.filter_app, estimations_loading. cbn [app].
    rewrite List.filter_app, length_app, estimations_verdicts
      by (rewrite length_map; lia).
    cbn [List.filter is_estimation length].
    change (simulate_all_as dT points par_time 0 _) with ran. lia.
  - exact Hfilter.
  - intros Hd. rewrite issue_is_verdict.
    etrans; [apply (f_equal (List.filter is_issue)), Hfilter|].
    rewrite Hd. clear.
    induction (seq 0 K) as [|i l IH]; [reflexivity|].
    cbn [map]. unfold verdict at 1. cbn zeta. rewrite Z.eqb_refl. exact IH.
Qed.

(** X10. When no status raises, the runs of [main] are these.  Every run
    prints the names it loads; then the banner of the threads and one line
    per thread, in some order; then, in this order, the report on the
    estimates of the threads, the banner of the sequential pass, the names
    again, one estimate and one verdict per replicate in index order, and the
    sum of the sequential durations; it returns 0.  The order of the banner
    and the lines of the threads is not fixed: whichever threads are chosen
    to print before the banner, and in whatever order, some run prints them
    so. *)
Theorem main_trace (dT dS : division) (replicates points : Z) (fs : F)
  (initial : nat -> State E) (par_time seq_time : nat -> f64) :
  (forall k e, (k < Z.to_nat replicates)%nat ->
     restoreStatus (status_name (Z.of_nat k)) fs e <> None) ->
  let K := Z.to_nat replicates in
  let ran := simulate_all_as dT points par_time 0
               (load_all fs 0 (map initial (seq 0 K))) in
  let results := map value ran in
  let reran := simulate_all_as dS points seq_time 0 (load_all fs 0 ran) in
  let trace := fun threads_out : list event =>
    (loading_log 0 K ++ threads_out ++
       Results (statistics results replicates) :: RunningSequential ::
       loading_log 0 K ++ verdict_log reran results ++
       [SequentialTime (total_duration reran 0%float)],
     inr 0) : IO Z in
  (forall m,
     main_run dT dS replicates points fs initial par_time seq_time m ->
     exists threads_out,
       Permutation threads_out (RunningThread :: estimation_log ran) /\
       m = trace threads_out) /\
  (forall before after,
     Permutation (before ++ after) (seq 0 K) ->
     main_run dT dS replicates points fs initial par_time seq_time
       (trace (lines_of ran before ++ RunningThread :: lines_of ran after))).
Proof.
  intros Hall K ran results reran trace. split.
  - intros m Hrun.
    exact (main_run_inv dT dS replicates points fs initial par_time seq_time
             Hall m Hrun).
  - intros before after Hperm.
    exact (main_run_scheduled dT dS replicates points fs initial par_time
             seq_time Hall before after Hperm).
Qed.

(** What [main_load_outcome] states of [main_with] holds of every run,
    whatever the schedule of the threads and the evaluation of line 45: if
    the first loading loop raises, the threads are never started and the run
    is the one of [main_with]; if no status raises, the run returns 0 and
    has printed the report and two estimates per replicate. *)
Lemma main_run_outcome (dT dS : division) (replicates points : Z) (fs : F)
  (initial : nat -> State E) (par_time seq_time : nat -> f64) (m : IO Z) :
  main_run dT dS replicates points fs initial par_time seq_time m ->
  (forall l e,
     initRng_loop fs 0 (map initial (seq 0 (Z.to_nat replicates))) = (l, inl e) ->
     m = (l, inl e) /\
     main_with replicates points fs initial par_time seq_time = (l, inl e)) /\
  ((forall k e, (k < Z.to_nat replicates)%nat ->
      restoreStatus (status_name (Z.of_nat k)) fs e <> None) ->
   outcome m = inr 0 /\
   (exists r, In (Results r) (printed m)) /\
   length (List.filter is_estimation (printed m)) =
     (2 * Z.to_nat replicates)%nat).
Proof.
  intros Hrun. split.
  - intros l e Hload. split.
    + inversion Hrun as [l' e' Hload' | l' states c ran Hload' _ _ _];
        rewrite Hload in Hload'; now inversion Hload'.
    + unfold main_with. now rewrite Hload.
  - intros Hall.
    destruct (main_run_inv dT dS replicates points fs initial par_time seq_time
                Hall m Hrun) as (threads_out & Hperm & ->).
    set (K := Z.to_nat replicates) in *.
    set (ran := simulate_all_as dT points par_time 0 _) in *.
    set (reran := simulate_all_as dS points seq_time 0 _).
    assert (Hran : length ran = K).
    { subst ran. now rewrite simulate_all_as_length, load_all_length,
        length_map, length_seq. }
    assert (Hreran : length reran = K).
    { subst reran. now rewrite simulate_all_as_length, load_all_length. }
    split; [reflexivity|]. cbn [printed fst]. split.
    + eexists. apply in_or_app. right. apply in_or_app. right. now left.
    + rewrite List.filter_app, estimations_loading. cbn [app].
      rewrite List.filter_app, length_app.
      rewrite (Permutation_filter_length is_estimation _ _ Hperm).
      cbn [List.filter is_estimation]. rewrite estimations_estimation.
      rewrite List.filter_app, estimations_loading. cbn [app].
      rewrite List.filter_app, length_app, estimations_verdicts
        by (rewrite length_map; lia).
      cbn [List.filter is_estimation length]. lia.
Qed.

End Pipeline.

(** One saved state, five points of which three fall inside, two calls: the
    call that divides returns the double nearest to 4.8, the call that
    multiplies by the reciprocal of 5 returns the next double.  The same
    happens with the number of points of [settings.h]. *)
Lemma reciprocal_call_differs :
  let st := Build_State 1 0%float 0%float in
  exists a b,
    outcome (computeSphereVolume_as Quotient 5 0.5%float st) = inr a /\
    outcome (computeSphereVolume_as Reciprocal 5 0.5%float st) = inr b /\
    outcome (computeSphereVolume 5 0.5%float st) = inr a /\
    rng a = rng b /\
    bits_of_f64 (value a) = 0x4013333333333333 /\
    bits_of_f64 (value b) = 0x4013333333333334 /\
    same_bits (estimate Quotient 523598775 Settings.POINTS)
              (estimate Reciprocal 523598775 Settings.POINTS) = false.
Proof.
  intros st. eexists _, _. repeat split; vm_compute; reflexivity.
Qed.

Ltac main_step :=
  eapply rtc_l;
  [ first [ eapply step_start; reflexivity
          | eapply step_banner
          | eapply step_join; reflexivity ]
  | ].

Ltac thread_step i :=
  eapply rtc_l;
  [ first [ eapply (step_iteration _ _ _ _ i); reflexivity
          | eapply (step_return _ _ _ _ i); reflexivity ]
  | ].

(** Two threads that start from the same engine state, five points each.
    Thread 1 is started while thread 0 is in its loop and prints before the
    banner, thread 0 behind it. *)
Lemma simulation_reproducible_witness :
  let states := [Build_State 1 0%float 0%float; Build_State 1 1%float 2%float] in
  let elapsed := fun i : nat => match i with O => 0.5 | _ => 0.25 end%float in
  let c := {| pc := [];
              threads := [Returned (Build_State 16 4.8%float 0.5%float);
                          Returned (Build_State 16 4.8%float 0.25%float)];
              out := [Estimation 4.8 0x4013333333333333 0.25; RunningThread;
                      Estimation 4.8 0x4013333333333333 0.5] |} in
  rtc (step Quotient 5 elapsed) (boot states) c /\
  exists si' sj',
    threads c !! 0%nat = Some (Returned si') /\
    threads c !! 1%nat = Some (Returned sj') /\
    rng si' = rng sj' /\
    bits_of_f64 (value si') = bits_of_f64 (value sj') /\
    forall (d' : division) (elapsed' : f64) (st : State Z),
      rng st = 1 ->
      exists st' in_,
        outcome (computeSphereVolume_as d' 5 elapsed' st) = inr st' /\
        rng st' = rng si' /\
        value st' = estimate d' in_ 5 /\
        value si' = estimate Quotient in_ 5 /\
        (d' = Quotient -> bits_of_f64 (value st') = bits_of_f64 (value si')).
Proof.
  intros states elapsed c.
  assert (Hrun : rtc (step Quotient 5 elapsed) (boot states) c).
  { subst states elapsed c.
    main_step. do 3 thread_step 0%nat. main_step. do 6 thread_step 1%nat.
    main_step. do 3 thread_step 0%nat. main_step. main_step.
    apply rtc_refl. }
  split; [exact Hrun|].
  apply (simulation_reproducible Quotient 5 elapsed states c 0 1
           (Build_State 1 0%float 0%float) (Build_State 1 1%float 2%float) Hrun);
    reflexivity.
Defined.

(** Two replicates of five points: three points of replicate 0 fall inside,
    four of replicate 1.  The threads divide and the call of line 157
    multiplies by the reciprocal; thread 1 prints before the banner.  The
    estimate of replicate 0 is not confirmed. *)
Lemma main_trace_witness :
  let fs : gmap string Z := {[ status_name 0 := 1; status_name 1 := 0 ]} in
  let initial := fun _ : nat => Build_State 100 0%float 0%float in
  let par_time := fun i : nat => match i with O => 0.5 | _ => 0.25 end%float in
  main_run Quotient Reciprocal 2 5 fs initial par_time (fun _ => 0.125%float)
    ([Loading "../status/status-00"; Loading "../status/status-01";
      Estimation 6.4 0x401999999999999A 0.25;
      RunningThread;
      Estimation 4.8 0x4013333333333333 0.5;
      Results (statistics [4.8; 6.4]%float 2);
      RunningSequential;
      Loading "../status/status-00"; Loading "../status/status-01";
      Estimation 0x1.3333333333334p+2 0x4013333333333334 0.125;
      ReproIssue 0x1.3333333333334p+2 0x4013333333333334
                 4.8 0x4013333333333333;
      Estimation 6.4 0x401999999999999A 0.125; ReproConfirmed;
      SequentialTime 0.25],
     inr 0).
Proof.
  intros fs initial par_time.
  destruct (main_trace Quotient Reciprocal 2 5 fs initial par_time
              (fun _ => 0.125%float)) as [_ Hsched].
  - intros k e Hk.
    destruct k as [|[|k]]; [discriminate | discriminate | cbn in Hk; lia].
  - refine (eq_ind _ (main_run Quotient Reciprocal 2 5 fs initial par_time
                        (fun _ => 0.125%float))
              (Hsched [1%nat] [0%nat] _) _ _).
    + apply perm_swap.
    + reflexivity.
Defined.
